(** * Ethereal Insights: quantum metrics and anomaly detection

    A shallow embedding of [src/utils/quantum.ts] (the quantum-metric
    generator and, in its second half, the sensor simulator's anomaly
    detector) together with the properties the specification states about
    them.

    Number model.  A JavaScript [number] is modelled as a real number with
    exact arithmetic; the single place where the code can leave the finite
    numbers from finite inputs, the division [ones / bits.length] on an empty
    array, is written out with an explicit [NaN].  [Math.random()] and
    [Date.now()] read from an explicit world that is threaded through every
    call in evaluation order.

    The sensor simulator of the same file and the quantum utilities of
    [src/app.tsx] are embedded after the detector, with their own
    properties at the end. *)

From Stdlib Require Import String Ascii.
From Stdlib Require Import Reals Lra Lia ZArith List Bool.
Import ListNotations.
Local Open Scope R_scope.

(** ** JavaScript numbers *)

Module Num.

(** [a > b], [a < b] and [a === b] on numbers. *)
Definition gt (a b : R) : bool := if Rlt_dec b a then true else false.
Definition lt (a b : R) : bool := if Rlt_dec a b then true else false.
Definition eq (a b : R) : bool := if Req_dec_T a b then true else false.

(** A number that may be [NaN]. *)
Inductive t : Type :=
| NaN : t
| Fin : R -> t.

(** [Math.log2]. *)
Definition log2 (x : R) : R := ln x / ln 2.

End Num.

(** ** The world: random numbers and the clock *)

Record World : Type := mkWorld {
  rand  : nat -> R;   (* the values [Math.random()] will return, in order *)
  clock : nat -> Z    (* the values [Date.now()] will return, in order *)
}.

(** [Math.random()] returns a number in [0, 1). *)
Definition valid_world (w : World) : Prop := forall n, 0 <= rand w n < 1.

Definition M (A : Type) : Type := World -> A * World.

Definition ret {A} (a : A) : M A := fun w => (a, w).

Definition bind {A B} (m : M A) (k : A -> M B) : M B :=
  fun w => let (a, w') := m w in k a w'.

Declare Scope js_scope.
Delimit Scope js_scope with js.
Notation "x <- m ;; k" := (bind m (fun x => k))
  (at level 61, m at next level, right associativity) : js_scope.
Local Open Scope js_scope.

Definition Math_random : M R :=
  fun w => (rand w 0%nat, mkWorld (fun n => rand w (S n)) (clock w)).

Definition Date_now : M Z :=
  fun w => (clock w 0%nat, mkWorld (rand w) (fun n => clock w (S n))).

(** ** quantum.ts, first half: the quantum-metric generator *)

Record QuantumState : Type := mkQuantumState {
  entropy          : Num.t;
  sValue           : R;
  bits             : list Z;
  deviationScore   : R;
  samplesPerSecond : Z
}.

(** [Array.from({ length: count }, () => (Math.random() > 0.5 ? 1 : 0))] *)
Fixpoint generateQRNGBits (count : nat) : M (list Z) :=
  match count with
  | O => ret []
  | S k =>
      r <- Math_random ;;
      rest <- generateQRNGBits k ;;
      ret ((if Num.gt r 0.5 then 1%Z else 0%Z) :: rest)
  end.

Definition updateQRNGStream (current : list Z) : M (list Z) :=
  fresh <- generateQRNGBits 4 ;;
  ret (skipn 4 current ++ fresh).

(** The entropy [h] of line 17, as a function of [p1] and [p0]. *)
Definition shannon (p1 p0 : R) : R := - (p1 * Num.log2 p1 + p0 * Num.log2 p0).

(** On the empty array [ones / bits.length] is [0 / 0 = NaN]: both
    comparisons of line 16 fail, [h] is [NaN], [Math.random()] is still
    called and [Math.min(1, NaN)] is [NaN]. *)
Definition calcEntropy (bits : list Z) : M Num.t :=
  let ones := length (filter (fun b => Z.eqb b 1) bits) in
  match length bits with
  | O => _ <- Math_random ;; ret Num.NaN
  | S _ =>
      let p1 := INR ones / INR (length bits) in
      let p0 := 1 - p1 in
      if Num.eq p1 0 || Num.eq p1 1 then ret (Num.Fin 0)
      else
        let h := shannon p1 p0 in
        r <- Math_random ;;
        ret (Num.Fin (Rmin 1 (h + (r - 0.5) * 0.015)))
  end.

Definition calcSValue (deviationScore : R) : M R :=
  r <- Math_random ;;
  let base := 1.85 + r * 0.25 in
  if Num.gt deviationScore 0.55 then
    r' <- Math_random ;;
    ret (Rmin 2.828 (base + deviationScore * 0.9 + r' * 0.08))
  else ret base.

Definition calcDeviationScore (emf temperature motion : R) : M R :=
  let emfNorm := Rmin 1 (Rmax 0 ((emf - 0.25) / 4.5)) in
  let tempNorm := Rmin 1 (Rmax 0 ((21 - temperature) / 12.0)) in
  let motNorm := Rmin 1 (motion * 1.4) in
  let raw := emfNorm * 0.40 + tempNorm * 0.35 + motNorm * 0.25 in
  r <- Math_random ;;
  ret (Rmin 1 (raw + (r - 0.5) * 0.04)).

Definition buildQuantumState (prev : QuantumState) (deviation : R) : M QuantumState :=
  bits <- updateQRNGStream (bits prev) ;;
  entropy <- calcEntropy bits ;;
  sValue <- calcSValue deviation ;;
  r <- Math_random ;;
  ret {| entropy := entropy;
         sValue := sValue;
         bits := bits;
         deviationScore := deviation;
         samplesPerSecond := (1048576 + Zfloor ((r - 0.5) * 65536))%Z |}.

Definition INITIAL_QUANTUM : M QuantumState :=
  bits <- generateQRNGBits 64 ;;
  ret {| entropy := Num.Fin 0.943;
         sValue := 1.97;
         bits := bits;
         deviationScore := 0.04;
         samplesPerSecond := 1048576 |}.

(** ** JavaScript strings

    A string is its sequence of UTF-16 code units, which is what
    [charCodeAt] reads in [simpleHash]. *)

Definition jsstring : Type := list Z.

(** An ASCII literal. *)
Definition lit (s : string) : jsstring :=
  map (fun c => Z.of_N (N_of_ascii c)) (list_ascii_of_string s).

Fixpoint digits_fuel (fuel : nat) (radix n : Z) (acc : list Z) : list Z :=
  match fuel with
  | O => acc
  | S k =>
      let acc' := (n mod radix)%Z :: acc in
      if (n / radix =? 0)%Z then acc' else digits_fuel k radix (n / radix)%Z acc'
  end.

(** The digits of [n >= 0], most significant first; a number has at most
    [log2 n + 1] digits in any radix. *)
Definition digits (radix n : Z) : list Z :=
  digits_fuel (S (Z.to_nat (Z.log2 n))) radix n [].

(** [0-9] then [a-z]. *)
Definition digitChar (d : Z) : Z := if (d <? 10)%Z then (48 + d)%Z else (87 + d)%Z.

(** [n.toString(radix)] for an integer [n] (below 10^21 in radix 10). *)
Definition toStringRadix (radix n : Z) : jsstring :=
  (if (n <? 0)%Z then [45%Z] else []) ++ map digitChar (digits radix (Z.abs n)).

(** [toUpperCase] on the strings it is applied to here: digits and ASCII
    letters. *)
Definition toUpperCase (s : jsstring) : jsstring :=
  map (fun c => if ((97 <=? c) && (c <=? 122))%Z then (c - 32)%Z else c) s.

(** [s.slice(-k)] *)
Definition slice_last (k : nat) (s : jsstring) : jsstring :=
  skipn (length s - k) s.

(** [s.padStart(k, c)] for a one-character filler. *)
Definition padStart (k : nat) (c : Z) (s : jsstring) : jsstring :=
  repeat c (k - length s) ++ s.

(** The result of [x.toFixed(f)]: a sign, and the integer [n] for which
    [n / 10^f] is closest to [|x|], the larger one on a tie. *)
Record Fixed : Type := mkFixed {
  fx_neg    : bool;
  fx_mag    : Z;
  fx_digits : nat
}.

Definition toFixed (x : R) (f : nat) : Fixed :=
  let neg := Num.lt x 0 in
  let ax := if neg then - x else x in
  {| fx_neg := neg; fx_mag := Zfloor (ax * 10 ^ f + / 2); fx_digits := f |}.

(** The number a [toFixed] string denotes, [+s] in the source.  From 10^21
    on [toFixed] prints the number in full instead, and the rounding to the
    grid of 10^-f below no longer happens there; the only use of the value,
    the comparison with 3.5 in [detectAnomaly], is the same for both. *)
Definition Fixed_value (s : Fixed) : R :=
  (if fx_neg s then - 1 else 1) * IZR (fx_mag s) / 10 ^ fx_digits s.

(** The string itself (for numbers below 10^21). *)
Definition Fixed_toString (s : Fixed) : jsstring :=
  let ds := map digitChar (digits 10 (fx_mag s)) in
  let f := fx_digits s in
  let body :=
    match f with
    | O => ds
    | S _ =>
        let padded := repeat 48%Z (S f - length ds) ++ ds in
        let k := (length padded - f)%nat in
        firstn k padded ++ [46%Z] ++ skipn k padded
    end in
  (if fx_neg s then [45%Z] else []) ++ body.

(** ** quantum.ts, second half: the anomaly detector

    The sensor simulator that stands between the two halves
    ([simulateSensors], with its module-level event timers) produces the
    readings and is not part of what is verified here; the detector takes
    the readings as they come. *)

Inductive AnomalyType : Type := emf_spike | temperature_drop | motion_surge | evp_pattern.

Inductive Severity : Type := medium | high.

Record SensorReading : Type := mkSensorReading {
  emf         : R;
  temperature : R;
  motion      : R;
  pressure    : R;
  audioLevel  : R;
  timestamp   : Z
}.

(** The object literal of line 142. *)
Module Readings.
Record t : Type := mk {
  emf         : R;
  temperature : R;
  motion      : R;
  audioLevel  : R
}.
End Readings.

Module Hotspot.
Record t : Type := mk { x : R; y : R }.
End Hotspot.

Module Anomaly.
Record t : Type := mk {
  id          : jsstring;
  timestamp   : Z;
  type        : AnomalyType;
  severity    : Severity;
  description : jsstring;
  readings    : Readings.t;
  entropy     : R;
  hash        : jsstring;
  hotspot     : Hotspot.t
}.
End Anomaly.

(** An element of [candidates]. *)
Module Candidate.
Record t : Type := mk {
  type     : AnomalyType;
  severity : Severity;
  desc     : jsstring
}.
End Candidate.

Definition toInt32 (z : Z) : Z := ((z + 2 ^ 31) mod 2 ^ 32 - 2 ^ 31)%Z.

(** [h << 5] wraps to 32 bits, the two additions are exact, [h & h] wraps
    again. *)
Definition simpleHash (s : jsstring) : jsstring :=
  let h := fold_left (fun h c => toInt32 (toInt32 (h * 32) + h + c)) s 5381%Z in
  padStart 8 48%Z (toUpperCase (toStringRadix 16 (Z.abs h))).

Definition detectAnomaly (current : SensorReading) (prev : option SensorReading)
  : M (option Anomaly.t) :=
  match prev with
  | None => ret None
  | Some prev =>
      candidates <- ret ([] : list Candidate.t) ;;
      candidates <-
        (if Num.gt (emf current) 2.8 && Num.lt (emf prev) 1.0 then
           let mult := toFixed (emf current / 0.2) 1 in
           r <- Math_random ;;
           let dev := toFixed (r * 0.35 + 0.12) 2 in
           ret (candidates ++
             [ {| Candidate.type := emf_spike;
                  Candidate.severity := if Num.gt (emf current) 6 then high else medium;
                  Candidate.desc :=
                    lit "EMF spike: " ++ Fixed_toString (toFixed (emf current) 2)
                    ++ lit " " ++ [181%Z] ++ lit "T (" ++ Fixed_toString mult
                    ++ [215%Z] ++ lit " baseline). Entropy deviation "
                    ++ Fixed_toString dev ++ [963%Z]
                    ++ lit " below QRNG baseline " ++ [8212%Z]
                    ++ lit " structured non-randomness detected." |} ])
         else ret candidates) ;;
      candidates <-
        (if Num.lt (temperature current) (temperature prev - 1.8) then
           let drop := toFixed (temperature prev - temperature current) 1 in
           ret (candidates ++
             [ {| Candidate.type := temperature_drop;
                  Candidate.severity := if Num.gt (Fixed_value drop) 3.5 then high else medium;
                  Candidate.desc :=
                    lit "Rapid thermal drop: " ++ [8722%Z] ++ Fixed_toString drop
                    ++ [176%Z]
                    ++ lit "C in <500ms. Thermodynamic analysis: inconsistent with HVAC cycling or occupant-induced convection." |} ])
         else ret candidates) ;;
      candidates <-
        (if Num.gt (motion current) 0.55 && Num.lt (motion prev) 0.08 then
           ret (candidates ++
             [ {| Candidate.type := motion_surge;
                  Candidate.severity := if Num.gt (motion current) 0.8 then high else medium;
                  Candidate.desc :=
                    lit "Motion surge: " ++ Fixed_toString (toFixed (motion current * 100) 0)
                    ++ lit "% intensity threshold. No registered occupant displacement in sensor zone." |} ])
         else ret candidates) ;;
      candidates <-
        (if Num.gt (audioLevel current) (- 22) && Num.lt (audioLevel prev) (- 42) then
           r <- Math_random ;;
           let conf := toFixed (r * 30 + 55) 0 in
           ret (candidates ++
             [ {| Candidate.type := evp_pattern;
                  Candidate.severity := if Num.gt (audioLevel current) (- 12) then high else medium;
                  Candidate.desc :=
                    lit "EVP-class audio event: " ++ Fixed_toString (toFixed (audioLevel current) 1)
                    ++ lit " dBSPL. CNN pattern classifier: " ++ Fixed_toString conf
                    ++ lit "% confidence of non-ambient structured signal in 80"
                    ++ [8211%Z] ++ lit "3400 Hz band." |} ])
         else ret candidates) ;;
      match candidates with
      | [] => ret None
      | pick :: _ =>
          t <- Date_now ;;
          let id := [913%Z] ++ slice_last 5 (toUpperCase (toStringRadix 36 t)) in
          t' <- Date_now ;;
          e <- Math_random ;;
          let hash := simpleHash (id ++ Candidate.desc pick ++ toStringRadix 10 (timestamp current)) in
          hx <- Math_random ;;
          hy <- Math_random ;;
          ret (Some {| Anomaly.id := id;
                       Anomaly.timestamp := t';
                       Anomaly.type := Candidate.type pick;
                       Anomaly.severity := Candidate.severity pick;
                       Anomaly.description := Candidate.desc pick;
                       Anomaly.readings :=
                         {| Readings.emf := emf current;
                            Readings.temperature := temperature current;
                            Readings.motion := motion current;
                            Readings.audioLevel := audioLevel current |};
                       Anomaly.entropy := 0.65 + e * 0.3;
                       Anomaly.hash := hash;
                       Anomaly.hotspot :=
                         {| Hotspot.x := 0.15 + hx * 0.7; Hotspot.y := 0.15 + hy * 0.7 |} |})
      end
  end.

Definition INITIAL_SENSORS (now : Z) : SensorReading :=
  {| emf := 0.19; temperature := 21.4; motion := 0.01; pressure := 1013.2;
     audioLevel := - 53; timestamp := now |}.

(** ** The detection rules in the specification's words

    Section 4.2 of the specification lists four threshold predicates in
    priority order. *)

Definition emf_spike_fires (current prev : SensorReading) : Prop :=
  emf current > 2.8 /\ emf prev < 1.0.

Definition temperature_drop_fires (current prev : SensorReading) : Prop :=
  temperature prev - temperature current > 1.8.

Definition motion_surge_fires (current prev : SensorReading) : Prop :=
  motion current > 0.55 /\ motion prev < 0.08.

Definition evp_pattern_fires (current prev : SensorReading) : Prop :=
  audioLevel current > - 22 /\ audioLevel prev < - 42.

(** The detection decision carried by a result: nothing, or a type and a
    severity. *)
Definition decision (r : option Anomaly.t) : option (AnomalyType * Severity) :=
  option_map (fun a => (Anomaly.type a, Anomaly.severity a)) r.

(** The type and severity of [candidates[0]], read off the four conditionals
    of [detectAnomaly] in order. *)
Definition first_candidate (current prev : SensorReading)
  : option (AnomalyType * Severity) :=
  if Num.gt (emf current) 2.8 && Num.lt (emf prev) 1.0 then
    Some (emf_spike, if Num.gt (emf current) 6 then high else medium)
  else if Num.lt (temperature current) (temperature prev - 1.8) then
    Some (temperature_drop,
          if Num.gt (Fixed_value (toFixed (temperature prev - temperature current) 1)) 3.5
          then high else medium)
  else if Num.gt (motion current) 0.55 && Num.lt (motion prev) 0.08 then
    Some (motion_surge, if Num.gt (motion current) 0.8 then high else medium)
  else if Num.gt (audioLevel current) (- 22) && Num.lt (audioLevel prev) (- 42) then
    Some (evp_pattern, if Num.gt (audioLevel current) (- 12) then high else medium)
  else None.

(** A reading with its pressure replaced. *)
Definition with_pressure (p : R) (r : SensorReading) : SensorReading :=
  {| emf := emf r; temperature := temperature r; motion := motion r;
     pressure := p; audioLevel := audioLevel r; timestamp := timestamp r |}.

(** ** quantum.ts, second half: the sensor simulator

    [eventPhase] and [eventTimer] are module-level variables of the source;
    here they are a state handed to [simulateSensors] and returned by it. *)

Definition clamp (v lo hi : R) : R := Rmin hi (Rmax lo v).

(** [noise(scale)]; every call in the source passes the scale. *)
Definition noise (scale : R) : M R :=
  r <- Math_random ;;
  ret ((r - 0.5) * scale).

Record EventState : Type := mkEventState {
  eventPhase : R;
  eventTimer : R
}.

Definition EVENT_INTERVAL_MS : R := 40000.

(** The event strength [evtStr] computed from the phase left after the
    decrement. *)
Definition event_strength (phase : R) : R :=
  if Num.gt phase 0 then phase / 9000 else 0.

Definition simulateSensors (st : EventState) (prev : SensorReading) (elapsed : R)
  : M (SensorReading * EventState) :=
  let timer := eventTimer st + elapsed in
  st1 <-
    (if Num.gt timer EVENT_INTERVAL_MS then
       r <- Math_random ;;
       if Num.lt r 0.35 then ret (mkEventState 9000 0)
       else ret (mkEventState (eventPhase st) (EVENT_INTERVAL_MS - 12000))
     else ret (mkEventState (eventPhase st) timer)) ;;
  let phase :=
    if Num.gt (eventPhase st1) 0 then eventPhase st1 - elapsed else eventPhase st1 in
  let evtStr := event_strength phase in
  n1 <- noise 0.05 ;;
  e2 <- (if Num.gt evtStr 0 then n <- noise 0.8 ;; ret (n * evtStr * 14) else ret 0) ;;
  let emf' := clamp (emf prev + n1 + e2) 0.05 14.0 in
  n2 <- noise 0.08 ;;
  let temperature' :=
    clamp (temperature prev + n2 - (if Num.gt evtStr 0 then 0.35 * evtStr else 0))
          13.0 28.0 in
  n3 <- noise 0.02 ;;
  m2 <- (if Num.gt evtStr 0 then r <- Math_random ;; ret (r * 0.5 * evtStr) else ret 0) ;;
  let motion' := clamp (Rabs (motion prev + n3 + m2)) 0 1 in
  n4 <- noise 0.06 ;;
  let pressure' := clamp (pressure prev + n4) 1008.0 1018.0 in
  n5 <- noise 4 ;;
  a2 <- (if Num.gt evtStr 0 then n <- noise 10 ;; ret (28 + n) else ret 0) ;;
  let audioLevel' := clamp (- 54 + n5 + a2) (- 80) 0 in
  t <- Date_now ;;
  ret ({| emf := emf'; temperature := temperature'; motion := motion';
          pressure := pressure'; audioLevel := audioLevel'; timestamp := t |},
       mkEventState phase (eventTimer st1)).

(** ** Repeated transitions

    The tick callback feeds each new state back into [buildQuantumState]; the
    run over a list of deviation scores, oldest first. *)
Fixpoint run_states (prev : QuantumState) (deviations : list R) : M QuantumState :=
  match deviations with
  | [] => ret prev
  | d :: ds => next <- buildQuantumState prev d ;; run_states next ds
  end.

(** The unbounded djb2 sum, with no wrap to 32 bits. *)
Definition djb2 (s : jsstring) : Z := fold_left (fun h c => (h * 33 + c)%Z) s 5381%Z.

(** The number [h] that [simpleHash] prints. *)
Definition simpleHash_value (s : jsstring) : Z :=
  fold_left (fun h c => toInt32 (toInt32 (h * 32) + h + c)) s 5381%Z.

(** The characters [0-9A-F]. *)
Definition is_upper_hex (c : Z) : Prop := (48 <= c <= 57)%Z \/ (65 <= c <= 70)%Z.

(** The complement of a bit. *)
Definition flip_bit (b : Z) : Z := (1 - b)%Z.

(** ** app.tsx: the quantum utilities *)

(** [buf.reduce((a, b) => a ^ b, 0) / 0xffffffff] over the four words that
    [crypto.getRandomValues] wrote; [^] works on 32-bit signed integers. *)
Definition generateQuantumEntropy (b0 b1 b2 b3 : Z) : R :=
  IZR (fold_left (fun a b => toInt32 (Z.lxor (toInt32 a) (toInt32 b)))
                 [b0; b1; b2; b3] 0%Z)
  / 4294967295.

(** [readings.slice(-4)] has four elements once the length test has passed;
    the last branch is not reachable. *)
Definition computeSValue (readings : list R) : R :=
  if (length readings <? 4)%nat then 0
  else
    match skipn (length readings - 4) readings with
    | a :: b :: c :: d :: _ => Rabs (a * b - c * d) * 2.828
    | _ => 0
    end.

(** At a baseline of exactly -0.001 the source divides by zero; the
    properties stated about this function leave that point out. *)
Definition compareToQRNG (value baseline : R) : R :=
  Rabs (value - baseline) / (baseline + 0.001).

Definition fmToAudio (mhz : R) : R := 350 + ((mhz - 87.5) / (108.0 - 87.5)) * 3400.

(** The frequency update of the spirit-box sweep (the interval callback of
    [SpiritBoxScreen]): a step of 0.1 MHz times the sweep rate, back to 87.5
    past 108.0, and otherwise rounded to one decimal by
    [parseFloat(x.toFixed(1))]. *)
Definition sweep_step (freq rate : R) : R :=
  let step := 0.1 * rate in
  if Num.gt (freq + step) 108.0 then 87.5
  else Fixed_value (toFixed (freq + step) 1).

(** ** Sample inputs and auxiliary notions *)

(** The example readings of the specification's section 8; pressure and
    timestamp are left open there. *)
Definition quiet (p : R) (t : Z) : SensorReading :=
  {| emf := 0.5; temperature := 21; motion := 0.01; pressure := p;
     audioLevel := - 50; timestamp := t |}.


(** A world whose random draws are all 0 and whose clock stands at 0. *)
Definition still_world : World := mkWorld (fun _ => 0) (fun _ => 0%Z).

(** Two results that differ at most in the description, the entropy
    decoration, the hotspot and the hash; the hash digests the id, the
    description and the reading's timestamp, and differs only where the
    description does. *)
Definition same_up_to_decoration (r1 r2 : option Anomaly.t) : Prop :=
  match r1, r2 with
  | None, None => True
  | Some a, Some b =>
      Anomaly.type a = Anomaly.type b
      /\ Anomaly.severity a = Anomaly.severity b
      /\ Anomaly.readings a = Anomaly.readings b
      /\ Anomaly.timestamp a = Anomaly.timestamp b
      /\ Anomaly.id a = Anomaly.id b
      /\ (Anomaly.description a = Anomaly.description b ->
          Anomaly.hash a = Anomaly.hash b)
  | _, _ => False
  end.

(** The values a bit of the window takes. *)
Definition is_bit (b : Z) : Prop := b = 0%Z \/ b = 1%Z.

(** A state whose window is 64 zeros. *)
Definition zero_state : QuantumState :=
  {| entropy := Num.Fin 0; sValue := 1.97; bits := repeat 0%Z 64;
     deviationScore := 0.04; samplesPerSecond := 1048576 |}.

(** The number of ones [calcEntropy] counts. *)
Definition ones (bits : list Z) : nat := length (filter (fun b => Z.eqb b 1) bits).

(** A state whose window holds 64 values that are not bits. *)
Definition stale_state : QuantumState :=
  {| entropy := Num.Fin 0; sValue := 2; bits := repeat 7%Z 64;
     deviationScore := 0; samplesPerSecond := 0 |}.

(** The Shannon entropy of a window as [calcEntropy] computes it before the
    jitter: 0 on a constant window. *)
Definition window_entropy (bits : list Z) : R :=
  let p1 := INR (ones bits) / INR (length bits) in
  if Num.eq p1 0 || Num.eq p1 1 then 0 else shannon p1 (1 - p1).

(** A reading whose motion has surged. *)
Definition surge_current : SensorReading :=
  {| emf := 0.5; temperature := 21; motion := 0.9; pressure := 1013;
     audioLevel := - 50; timestamp := 500 |}.

(** A reading whose audio level has risen. *)
Definition voice_current : SensorReading :=
  {| emf := 0.5; temperature := 21; motion := 0.01; pressure := 1013;
     audioLevel := - 15; timestamp := 500 |}.

(** A quiet reading at temperature [t]. *)
Definition cooling (t : R) : SensorReading :=
  {| emf := 0.5; temperature := t; motion := 0.01; pressure := 1013;
     audioLevel := - 50; timestamp := 0 |}.

(** * Properties *)

(** ** Comparisons *)

Lemma Num_gt_true a b : Num.gt a b = true <-> b < a.
Proof. unfold Num.gt; destruct (Rlt_dec b a); split; (congruence || lra || auto). Qed.

Lemma Num_gt_false a b : Num.gt a b = false <-> a <= b.
Proof. unfold Num.gt; destruct (Rlt_dec b a); split; (congruence || lra || auto). Qed.

Lemma Num_lt_true a b : Num.lt a b = true <-> a < b.
Proof. unfold Num.lt; destruct (Rlt_dec a b); split; (congruence || lra || auto). Qed.

Lemma Num_lt_false a b : Num.lt a b = false <-> b <= a.
Proof. unfold Num.lt; destruct (Rlt_dec a b); split; (congruence || lra || auto). Qed.

Lemma Num_eq_true a b : Num.eq a b = true <-> a = b.
Proof. unfold Num.eq; destruct (Req_dec_T a b); split; (congruence || auto). Qed.

Lemma Num_eq_false a b : Num.eq a b = false <-> a <> b.
Proof. unfold Num.eq; destruct (Req_dec_T a b); split; (congruence || auto). Qed.

(** Turns the boolean comparisons in the context into real inequalities. *)
Ltac num_hyps :=
  repeat match goal with
  | H : Num.gt _ _ = true |- _ => apply Num_gt_true in H
  | H : Num.gt _ _ = false |- _ => apply Num_gt_false in H
  | H : Num.lt _ _ = true |- _ => apply Num_lt_true in H
  | H : Num.lt _ _ = false |- _ => apply Num_lt_false in H
  | H : Num.eq _ _ = true |- _ => apply Num_eq_true in H
  | H : Num.eq _ _ = false |- _ => apply Num_eq_false in H
  | H : _ && _ = true |- _ => apply andb_true_iff in H; destruct H
  | H : _ || _ = false |- _ => apply orb_false_iff in H; destruct H
  end.

(** ** Running the monad *)

Lemma bind_run {A B} (m : M A) (k : A -> M B) w :
  bind m k w = k (fst (m w)) (snd (m w)).
Proof. unfold bind; destruct (m w); reflexivity. Qed.

Lemma Math_random_valid w :
  valid_world w -> 0 <= fst (Math_random w) < 1 /\ valid_world (snd (Math_random w)).
Proof. intros H; split; [apply H | intros n; apply H]. Qed.

(** ** The detector's decision *)

Lemma detectAnomaly_decision current prev w :
  decision (fst (detectAnomaly current (Some prev) w)) = first_candidate current prev.
Proof.
  unfold detectAnomaly, first_candidate, decision, bind, ret, Math_random, Date_now.
  destruct (Num.gt (emf current) 2.8 && Num.lt (emf prev) 1.0);
  destruct (Num.lt (temperature current) (temperature prev - 1.8));
  destruct (Num.gt (motion current) 0.55 && Num.lt (motion prev) 0.08);
  destruct (Num.gt (audioLevel current) (- 22) && Num.lt (audioLevel prev) (- 42));
  reflexivity.
Qed.

Lemma detectAnomaly_none_iff current prev w :
  fst (detectAnomaly current (Some prev) w) = None <-> first_candidate current prev = None.
Proof.
  rewrite <- (detectAnomaly_decision current prev w); unfold decision.
  destruct (fst (detectAnomaly current (Some prev) w)); simpl; split; congruence.
Qed.

Lemma detectAnomaly_some current prev w ty sv :
  first_candidate current prev = Some (ty, sv) ->
  exists a, fst (detectAnomaly current (Some prev) w) = Some a
            /\ Anomaly.type a = ty /\ Anomaly.severity a = sv.
Proof.
  rewrite <- (detectAnomaly_decision current prev w); unfold decision.
  destruct (fst (detectAnomaly current (Some prev) w)) as [a|]; simpl; [|discriminate].
  intros H; injection H as <- <-; eauto.
Qed.

Lemma emf_cond_iff current prev :
  Num.gt (emf current) 2.8 && Num.lt (emf prev) 1.0 = true <-> emf_spike_fires current prev.
Proof.
  unfold emf_spike_fires; rewrite andb_true_iff, Num_gt_true, Num_lt_true; unfold Rgt; tauto.
Qed.

Lemma temperature_cond_iff current prev :
  Num.lt (temperature current) (temperature prev - 1.8) = true
  <-> temperature_drop_fires current prev.
Proof. unfold temperature_drop_fires; rewrite Num_lt_true; split; lra. Qed.

Lemma motion_cond_iff current prev :
  Num.gt (motion current) 0.55 && Num.lt (motion prev) 0.08 = true
  <-> motion_surge_fires current prev.
Proof.
  unfold motion_surge_fires; rewrite andb_true_iff, Num_gt_true, Num_lt_true; unfold Rgt; tauto.
Qed.

Lemma evp_cond_iff current prev :
  Num.gt (audioLevel current) (- 22) && Num.lt (audioLevel prev) (- 42) = true
  <-> evp_pattern_fires current prev.
Proof.
  unfold evp_pattern_fires; rewrite andb_true_iff, Num_gt_true, Num_lt_true; unfold Rgt; tauto.
Qed.

Lemma cond_false_iff (b : bool) (P : Prop) : (b = true <-> P) -> (b = false <-> ~ P).
Proof. destruct b; intros [H1 H2]; split; intros; try congruence; try tauto.
  - intros HP. apply H2 in HP. discriminate.
Qed.

Lemma first_candidate_cases current prev :
  (emf_spike_fires current prev ->
     first_candidate current prev
     = Some (emf_spike, if Num.gt (emf current) 6 then high else medium))
  /\ (~ emf_spike_fires current prev -> temperature_drop_fires current prev ->
     first_candidate current prev
     = Some (temperature_drop,
             if Num.gt (Fixed_value (toFixed (temperature prev - temperature current) 1)) 3.5
             then high else medium))
  /\ (~ emf_spike_fires current prev -> ~ temperature_drop_fires current prev ->
      motion_surge_fires current prev ->
     first_candidate current prev
     = Some (motion_surge, if Num.gt (motion current) 0.8 then high else medium))
  /\ (~ emf_spike_fires current prev -> ~ temperature_drop_fires current prev ->
      ~ motion_surge_fires current prev -> evp_pattern_fires current prev ->
     first_candidate current prev
     = Some (evp_pattern, if Num.gt (audioLevel current) (- 12) then high else medium))
  /\ (~ emf_spike_fires current prev -> ~ temperature_drop_fires current prev ->
      ~ motion_surge_fires current prev -> ~ evp_pattern_fires current prev ->
     first_candidate current prev = None).
Proof.
  pose proof (emf_cond_iff current prev) as He.
  pose proof (temperature_cond_iff current prev) as Ht.
  pose proof (motion_cond_iff current prev) as Hm.
  pose proof (evp_cond_iff current prev) as Ha.
  pose proof (cond_false_iff _ _ He) as He'.
  pose proof (cond_false_iff _ _ Ht) as Ht'.
  pose proof (cond_false_iff _ _ Hm) as Hm'.
  pose proof (cond_false_iff _ _ Ha) as Ha'.
  unfold first_candidate.
  repeat split; intros;
    repeat match goal with
    | H : emf_spike_fires _ _ |- _ => apply He in H; rewrite H
    | H : ~ emf_spike_fires _ _ |- _ => apply He' in H; rewrite H
    | H : temperature_drop_fires _ _ |- _ => apply Ht in H; rewrite H
    | H : ~ temperature_drop_fires _ _ |- _ => apply Ht' in H; rewrite H
    | H : motion_surge_fires _ _ |- _ => apply Hm in H; rewrite H
    | H : ~ motion_surge_fires _ _ |- _ => apply Hm' in H; rewrite H
    | H : evp_pattern_fires _ _ |- _ => apply Ha in H; rewrite H
    | H : ~ evp_pattern_fires _ _ |- _ => apply Ha' in H; rewrite H
    end; reflexivity.
Qed.

(** The type of the first candidate names a predicate that fires, and every
    predicate before it does not. *)
Lemma first_candidate_type current prev ty sv :
  first_candidate current prev = Some (ty, sv) ->
  match ty with
  | emf_spike => emf_spike_fires current prev
  | temperature_drop =>
      ~ emf_spike_fires current prev /\ temperature_drop_fires current prev
  | motion_surge =>
      ~ emf_spike_fires current prev /\ ~ temperature_drop_fires current prev
      /\ motion_surge_fires current prev
  | evp_pattern =>
      ~ emf_spike_fires current prev /\ ~ temperature_drop_fires current prev
      /\ ~ motion_surge_fires current prev /\ evp_pattern_fires current prev
  end.
Proof.
  pose proof (emf_cond_iff current prev) as He.
  pose proof (temperature_cond_iff current prev) as Ht.
  pose proof (motion_cond_iff current prev) as Hm.
  pose proof (evp_cond_iff current prev) as Ha.
  pose proof (cond_false_iff _ _ He) as He'.
  pose proof (cond_false_iff _ _ Ht) as Ht'.
  pose proof (cond_false_iff _ _ Hm) as Hm'.
  pose proof (cond_false_iff _ _ Ha) as Ha'.
  unfold first_candidate.
  destruct (Num.gt (emf current) 2.8 && Num.lt (emf prev) 1.0);
    [intros H; injection H as <- _; tauto|].
  destruct (Num.lt (temperature current) (temperature prev - 1.8));
    [intros H; injection H as <- _; tauto|].
  destruct (Num.gt (motion current) 0.55 && Num.lt (motion prev) 0.08);
    [intros H; injection H as <- _; tauto|].
  destruct (Num.gt (audioLevel current) (- 22) && Num.lt (audioLevel prev) (- 42));
    [intros H; injection H as <- _; tauto| discriminate].
Qed.

Lemma detectAnomaly_type current prev w a :
  fst (detectAnomaly current (Some prev) w) = Some a ->
  first_candidate current prev = Some (Anomaly.type a, Anomaly.severity a).
Proof.
  intros H; rewrite <- (detectAnomaly_decision current prev w), H; reflexivity.
Qed.

(** C6. With no previous reading [detectAnomaly] returns no anomaly, whatever
    the current reading is (and reads neither the random source nor the
    clock). *)
Theorem detectAnomaly_no_previous :
  forall (current : SensorReading) (w : World),
    detectAnomaly current None w = (None, w).
Proof. intros; reflexivity. Qed.


(** C7. With a previous reading present, [detectAnomaly] returns an emf_spike
    anomaly exactly when the current EMF is above 2.8 and the previous EMF
    below 1.0; its severity is high exactly when the current EMF is above 6
    and medium otherwise; on the specification's example (EMF 0.5 to 3.0,
    nothing else changing) it returns an emf_spike of severity medium. *)
Theorem detectAnomaly_emf_spike :
  (forall (current prev : SensorReading) (w : World),
     let r := fst (detectAnomaly current (Some prev) w) in
     ((exists a, r = Some a /\ Anomaly.type a = emf_spike)
      <-> emf current > 2.8 /\ emf prev < 1.0)
     /\ (forall a, r = Some a -> Anomaly.type a = emf_spike ->
           (Anomaly.severity a = high <-> emf current > 6)
           /\ (Anomaly.severity a = medium <-> ~ emf current > 6)))
  /\ (forall (p p' : R) (t t' : Z) (w : World),
        let current := {| emf := 3.0; temperature := 21; motion := 0.01;
                          pressure := p; audioLevel := - 50; timestamp := t |} in
        exists a, fst (detectAnomaly current (Some (quiet p' t')) w) = Some a
                  /\ Anomaly.type a = emf_spike /\ Anomaly.severity a = medium).
Proof.
  split.
  - intros current prev w r; subst r.
    destruct (first_candidate_cases current prev) as (H1 & _).
    split.
    + split.
      * intros (a & Ha & Hty).
        apply detectAnomaly_type in Ha. rewrite Hty in Ha.
        exact (first_candidate_type _ _ _ _ Ha).
      * intros He.
        destruct (detectAnomaly_some current prev w _ _ (H1 He)) as (a & Ha & Hty & _).
        eauto.
    + intros a Ha Hty.
      apply detectAnomaly_type in Ha. rewrite Hty in Ha.
      pose proof (first_candidate_type _ _ _ _ Ha) as He. simpl in He.
      rewrite (H1 He) in Ha. injection Ha as Hsv.
      destruct (Num.gt (emf current) 6) eqn:E; num_hyps; rewrite <- Hsv;
        split; split; intros; (congruence || lra).
  - intros p p' t t' w current.
    destruct (first_candidate_cases current (quiet p' t')) as (H1 & _).
    assert (He : emf_spike_fires current (quiet p' t'))
      by (unfold emf_spike_fires; simpl; lra).
    specialize (H1 He).
    replace (Num.gt (emf current) 6) with false in H1
      by (symmetry; apply Num_gt_false; simpl; lra).
    apply detectAnomaly_some; exact H1.
Qed.

(** ** Rounding in [toFixed] *)

Lemma toFixed_nonneg x f :
  0 <= x -> toFixed x f = mkFixed false (Zfloor (x * 10 ^ f + / 2)) f.
Proof.
  intros Hx; unfold toFixed.
  rewrite (proj2 (Num_lt_false x 0) Hx); reflexivity.
Qed.





(** ** Non-interference *)

(** C9. The detection decision does not depend on the random numbers drawn:
    two runs on the same readings agree on whether an anomaly is returned and
    on its type and severity, whatever their random streams (and clocks);
    under the same clock everything but the description, the entropy
    decoration, the hotspot and the hash of the description agrees as well. *)
Theorem detectAnomaly_random_independent :
  forall (current : SensorReading) (prev : option SensorReading),
    (forall w1 w2 : World,
       decision (fst (detectAnomaly current prev w1))
       = decision (fst (detectAnomaly current prev w2)))
    /\ (forall (rand1 rand2 : nat -> R) (clk : nat -> Z),
          same_up_to_decoration
            (fst (detectAnomaly current prev (mkWorld rand1 clk)))
            (fst (detectAnomaly current prev (mkWorld rand2 clk)))).
Proof.
  intros current [prev|].
  - split.
    + intros w1 w2. rewrite !detectAnomaly_decision. reflexivity.
    + intros rand1 rand2 clk.
      unfold detectAnomaly, same_up_to_decoration, bind, ret, Math_random, Date_now.
      destruct (Num.gt (emf current) 2.8 && Num.lt (emf prev) 1.0);
      destruct (Num.lt (temperature current) (temperature prev - 1.8));
      destruct (Num.gt (motion current) 0.55 && Num.lt (motion prev) 0.08);
      destruct (Num.gt (audioLevel current) (- 22) && Num.lt (audioLevel prev) (- 42));
      cbn [fst app Anomaly.type Anomaly.severity Anomaly.readings Anomaly.timestamp
           Anomaly.id Anomaly.description Anomaly.hash Candidate.type
           Candidate.severity Candidate.desc rand clock];
      try exact I;
      (repeat split; try reflexivity; intros Hd; rewrite Hd; reflexivity).
  - split; intros; simpl; auto.
Qed.

(** C10. The pressure of the readings never reaches [detectAnomaly]:
    replacing the pressure of the current and of the previous reading by any
    other values leaves the whole result unchanged, so also the decision; and
    the readings snapshot of a returned anomaly holds the current emf,
    temperature, motion and audioLevel, and has no pressure field. *)
Theorem detectAnomaly_ignores_pressure :
  forall (current : SensorReading) (prev : option SensorReading) (pc pp : R) (w : World),
    detectAnomaly (with_pressure pc current) (option_map (with_pressure pp) prev) w
    = detectAnomaly current prev w
    /\ decision (fst (detectAnomaly (with_pressure pc current)
                        (option_map (with_pressure pp) prev) w))
       = decision (fst (detectAnomaly current prev w))
    /\ (forall a, fst (detectAnomaly current prev w) = Some a ->
          Anomaly.readings a
          = {| Readings.emf := emf current;
               Readings.temperature := temperature current;
               Readings.motion := motion current;
               Readings.audioLevel := audioLevel current |}).
Proof.
  intros current prev pc pp w.
  assert (E : detectAnomaly (with_pressure pc current)
                (option_map (with_pressure pp) prev) w
              = detectAnomaly current prev w)
    by (destruct prev; reflexivity).
  split; [exact E|]. split; [rewrite E; reflexivity|].
  destruct prev as [prev|]; [|discriminate].
  unfold detectAnomaly, bind, ret, Math_random, Date_now.
  destruct (Num.gt (emf current) 2.8 && Num.lt (emf prev) 1.0);
  destruct (Num.lt (temperature current) (temperature prev - 1.8));
  destruct (Num.gt (motion current) 0.55 && Num.lt (motion prev) 0.08);
  destruct (Num.gt (audioLevel current) (- 22) && Num.lt (audioLevel prev) (- 42));
  simpl; intros a H; try discriminate; injection H as <-; reflexivity.
Qed.

(** ** The bit window *)

Lemma is_bit_of_bool (b : bool) : is_bit (if b then 1%Z else 0%Z).
Proof. unfold is_bit; destruct b; auto. Qed.

Lemma generateQRNGBits_length n w : length (fst (generateQRNGBits n w)) = n.
Proof.
  revert w; induction n as [|n IH]; intros w; [reflexivity|].
  cbn [generateQRNGBits]. rewrite !bind_run. cbn [ret fst]. simpl length.
  f_equal. apply IH.
Qed.

Lemma generateQRNGBits_bits n w : Forall is_bit (fst (generateQRNGBits n w)).
Proof.
  revert w; induction n as [|n IH]; intros w; [constructor|].
  cbn [generateQRNGBits]. rewrite !bind_run. cbn [ret fst].
  constructor; [|apply IH].
  unfold is_bit; destruct (Num.gt _ _); auto.
Qed.

Lemma generateQRNGBits_valid n w :
  valid_world w -> valid_world (snd (generateQRNGBits n w)).
Proof.
  revert w; induction n as [|n IH]; intros w Hw; [exact Hw|].
  cbn [generateQRNGBits]. rewrite !bind_run. cbn [ret snd].
  apply IH. apply Math_random_valid, Hw.
Qed.

Lemma updateQRNGStream_run current w :
  updateQRNGStream current w
  = (skipn 4 current ++ fst (generateQRNGBits 4 w), snd (generateQRNGBits 4 w)).
Proof. unfold updateQRNGStream. rewrite bind_run. reflexivity. Qed.

Lemma updateQRNGStream_length current w :
  length current = 64%nat -> length (fst (updateQRNGStream current w)) = 64%nat.
Proof.
  intros H. rewrite updateQRNGStream_run. cbn [fst].
  rewrite length_app, length_skipn, generateQRNGBits_length, H. reflexivity.
Qed.

Lemma buildQuantumState_fields prev deviation w :
  let w1 := snd (updateQRNGStream (bits prev) w) in
  let next := fst (buildQuantumState prev deviation w) in
  bits next = fst (updateQRNGStream (bits prev) w)
  /\ entropy next = fst (calcEntropy (bits next) w1)
  /\ sValue next = fst (calcSValue deviation (snd (calcEntropy (bits next) w1)))
  /\ deviationScore next = deviation.
Proof.
  unfold buildQuantumState. rewrite !bind_run. cbn [ret fst bits entropy sValue deviationScore].
  auto.
Qed.

(** C5. From a previous state whose window has 64 bits, [buildQuantumState]
    returns a state whose window has 64 bits again: the previous window
    without its first 4 bits, followed by 4 freshly drawn bits. *)
Theorem buildQuantumState_window :
  forall (prev : QuantumState) (deviation : R) (w : World),
    length (bits prev) = 64%nat ->
    let next := fst (buildQuantumState prev deviation w) in
    let fresh := map (fun k => if Num.gt (rand w k) 0.5 then 1%Z else 0%Z)
                     [0; 1; 2; 3]%nat in
    length (bits next) = 64%nat
    /\ bits next = skipn 4 (bits prev) ++ fresh
    /\ length (skipn 4 (bits prev)) = 60%nat
    /\ length fresh = 4%nat
    /\ Forall is_bit fresh.
Proof.
  intros prev deviation w H next fresh; subst next.
  destruct (buildQuantumState_fields prev deviation w) as (Hb & _).
  rewrite Hb.
  split; [apply updateQRNGStream_length; exact H|].
  split; [rewrite updateQRNGStream_run; reflexivity|].
  split; [rewrite length_skipn, H; reflexivity|].
  split; [reflexivity|].
  subst fresh; cbn [map].
  repeat (apply Forall_cons; [apply is_bit_of_bool|]). apply Forall_nil.
Qed.

Lemma buildQuantumState_window_witness :
  length (bits zero_state) = 64%nat
  /\ (let next := fst (buildQuantumState zero_state 0.5 still_world) in
      let fresh := map (fun k => if Num.gt (rand still_world k) 0.5 then 1%Z else 0%Z)
                       [0; 1; 2; 3]%nat in
      length (bits next) = 64%nat
      /\ bits next = skipn 4 (bits zero_state) ++ fresh
      /\ length (skipn 4 (bits zero_state)) = 60%nat
      /\ length fresh = 4%nat
      /\ Forall is_bit fresh).
Proof.
  split.
  - reflexivity.
  - apply (buildQuantumState_window zero_state 0.5 still_world). reflexivity.
Defined.

(** ** The binary entropy *)

Lemma ln_2_pos : 0 < ln 2.
Proof. pose proof ln_lt_2; lra. Qed.

Lemma log2_half : Num.log2 (/ 2) = - 1.
Proof.
  unfold Num.log2. rewrite ln_Rinv by lra.
  pose proof ln_2_pos. field. lra.
Qed.

Lemma log2_neg q : 0 < q < 1 -> Num.log2 q < 0.
Proof.
  intros [H0 H1]. unfold Num.log2.
  pose proof ln_2_pos as H2.
  pose proof (ln_increasing q 1 H0 H1) as Hl. rewrite ln_1 in Hl.
  apply Rmult_neg_pos; [exact Hl | apply Rinv_0_lt_compat; exact H2].
Qed.

Lemma log2_le_half q : 0 < q <= / 2 -> Num.log2 q <= - 1.
Proof.
  intros [H0 H1]. destruct (Req_dec_T q (/ 2)) as [->|Hne].
  - rewrite log2_half; lra.
  - rewrite <- log2_half. unfold Num.log2.
    pose proof ln_2_pos as H2.
    assert (Hl : ln q < ln (/ 2)) by (apply ln_increasing; lra).
    apply Rmult_le_compat_r; [left; apply Rinv_0_lt_compat; exact H2 | lra].
Qed.

(** Away from 0 and 1 the entropy is at least the smaller of the two
    probabilities. *)
Lemma shannon_lower p m :
  0 < p < 1 -> m <= p -> m <= 1 - p -> m <= shannon p (1 - p).
Proof.
  intros [H0 H1] Hp Hq. unfold shannon.
  destruct (Rle_dec p (/ 2)) as [Hh|Hh].
  - pose proof (log2_le_half p (conj H0 Hh)) as Ha.
    pose proof (log2_neg (1 - p) ltac:(lra)) as Hb.
    nra.
  - pose proof (log2_le_half (1 - p) ltac:(lra)) as Ha.
    pose proof (log2_neg p (conj H0 H1)) as Hb.
    nra.
Qed.

Lemma shannon_half : shannon (/ 2) (1 - / 2) = 1.
Proof.
  unfold shannon. replace (1 - / 2) with (/ 2) by lra.
  rewrite log2_half. lra.
Qed.

Lemma ones_le bits : (ones bits <= length bits)%nat.
Proof. apply filter_length_le. Qed.

Lemma calcEntropy_valid bits w :
  valid_world w -> valid_world (snd (calcEntropy bits w)).
Proof.
  intros Hw. unfold calcEntropy.
  destruct (length bits).
  - rewrite bind_run. cbn [ret snd]. apply Math_random_valid, Hw.
  - destruct (Num.eq _ 0 || Num.eq _ 1); [exact Hw|].
    rewrite bind_run. cbn [ret snd]. apply Math_random_valid, Hw.
Qed.

Lemma INR_64 : INR 64 = 64.
Proof. rewrite INR_IZR_INZ. reflexivity. Qed.

Lemma calcEntropy_bounds bits w :
  valid_world w -> length bits = 64%nat ->
  exists e, fst (calcEntropy bits w) = Num.Fin e /\ 0 <= e <= 1.
Proof.
  intros Hw Hlen. unfold calcEntropy. fold (ones bits). rewrite Hlen.
  cbv match. rewrite INR_64.
  destruct (Num.eq (INR (ones bits) / 64) 0 || Num.eq (INR (ones bits) / 64) 1) eqn:E.
  - exists 0. split; [reflexivity | lra].
  - num_hyps. rewrite bind_run. cbn [ret fst].
    eexists; split; [reflexivity|].
    pose proof (ones_le bits) as Hle. rewrite Hlen in Hle.
    assert (Hpos : (1 <= ones bits)%nat).
    { destruct (ones bits) eqn:Eo; [|lia]. exfalso. apply H. simpl. lra. }
    assert (Hlt : (ones bits <= 63)%nat).
    { destruct (Nat.eq_dec (ones bits) 64) as [Ee|Ee]; [|lia].
      exfalso. apply H0. rewrite Ee, INR_64. lra. }
    apply le_INR in Hpos, Hlt.
    replace (INR 63) with 63 in Hlt by (rewrite INR_IZR_INZ; reflexivity).
    change (INR 1) with 1 in Hpos.
    set (p := INR (ones bits) / 64) in *.
    assert (Hp : / 64 <= p <= 63 / 64) by (unfold p; lra).
    pose proof (shannon_lower p (/ 64) ltac:(lra) ltac:(lra) ltac:(lra)) as Hs.
    destruct (Math_random_valid w Hw) as [Hr _].
    split.
    + apply Rmin_glb; lra.
    + apply Rmin_l.
Qed.

Lemma calcSValue_bounds deviation w :
  valid_world w -> 1.85 <= fst (calcSValue deviation w) <= 2.828.
Proof.
  intros Hw. unfold calcSValue. rewrite bind_run.
  destruct (Math_random_valid w Hw) as [Hr Hw'].
  destruct (Num.gt deviation 0.55) eqn:E.
  - rewrite bind_run. cbn [ret fst]. num_hyps.
    destruct (Math_random_valid _ Hw') as [Hr' _].
    split; [apply Rmin_glb; lra | apply Rmin_l].
  - cbn [ret fst]. lra.
Qed.

(** C1. From a previous state whose window has 64 bits and a deviation score
    in [0,1], with [Math.random()] returning numbers in [0,1), the state
    returned by [buildQuantumState] has an entropy in [0,1] and an sValue in
    [0, 2.828]. *)
Theorem buildQuantumState_bounds :
  forall (prev : QuantumState) (deviation : R) (w : World),
    valid_world w ->
    length (bits prev) = 64%nat ->
    0 <= deviation <= 1 ->
    let next := fst (buildQuantumState prev deviation w) in
    (exists e, entropy next = Num.Fin e /\ 0 <= e <= 1)
    /\ 0 <= sValue next <= 2.828.
Proof.
  intros prev deviation w Hw Hlen Hdev next; subst next.
  destruct (buildQuantumState_fields prev deviation w) as (Hb & He & Hs & _).
  assert (Hw1 : valid_world (snd (updateQRNGStream (bits prev) w))).
  { rewrite updateQRNGStream_run. cbn [snd]. apply generateQRNGBits_valid, Hw. }
  split.
  - rewrite He. apply calcEntropy_bounds; [exact Hw1|].
    rewrite Hb. apply updateQRNGStream_length, Hlen.
  - rewrite Hs.
    pose proof (calcSValue_bounds deviation _
                  (calcEntropy_valid (bits (fst (buildQuantumState prev deviation w)))
                     _ Hw1)) as H.
    lra.
Qed.

Lemma valid_still_world : valid_world still_world.
Proof. intros n; simpl; lra. Defined.

Lemma buildQuantumState_bounds_witness :
  valid_world still_world
  /\ length (bits zero_state) = 64%nat
  /\ 0 <= 0.5 <= 1
  /\ (let next := fst (buildQuantumState zero_state 0.5 still_world) in
      (exists e, entropy next = Num.Fin e /\ 0 <= e <= 1)
      /\ 0 <= sValue next <= 2.828).
Proof.
  split; [exact valid_still_world|].
  split; [reflexivity|].
  split; [lra|].
  apply (buildQuantumState_bounds zero_state 0.5 still_world).
  - exact valid_still_world.
  - reflexivity.
  - lra.
Defined.

(** C8. On a window that is all zeros, or all ones, [calcEntropy] returns
    exactly 0 and draws no random number, so no jitter is applied; on a
    window of 64 bits with exactly 32 ones and 32 zeros the entropy [h]
    computed before the jitter is exactly 1. *)
Theorem calcEntropy_degenerate_and_balanced :
  (forall (bits : list Z) (w : World),
     bits <> [] -> Forall (fun b => b = 0%Z) bits ->
     calcEntropy bits w = (Num.Fin 0, w))
  /\ (forall (bits : list Z) (w : World),
        bits <> [] -> Forall (fun b => b = 1%Z) bits ->
        calcEntropy bits w = (Num.Fin 0, w))
  /\ (forall (bits : list Z) (w : World),
        length bits = 64%nat ->
        length (filter (fun b => Z.eqb b 1) bits) = 32%nat ->
        length (filter (fun b => Z.eqb b 0) bits) = 32%nat ->
        let p1 := INR (length (filter (fun b => Z.eqb b 1) bits)) / INR (length bits) in
        shannon p1 (1 - p1) = 1
        /\ calcEntropy bits w
           = (Num.Fin (Rmin 1 (1 + (rand w 0 - 0.5) * 0.015)), snd (Math_random w))).
Proof.
  split; [|split].
  - intros bits w Hne Hall. unfold calcEntropy.
    assert (Hf : filter (fun b => Z.eqb b 1) bits = []).
    { clear Hne. induction Hall as [|b l Hb _ IH]; [reflexivity|].
      simpl. rewrite Hb, IH. reflexivity. }
    rewrite Hf. destruct bits as [|b l]; [contradiction|].
    cbn [length]. change (INR 0) with 0.
    replace (Num.eq (0 / INR (S (length l))) 0) with true; [reflexivity|].
    symmetry. apply Num_eq_true. unfold Rdiv. apply Rmult_0_l.
  - intros bits w Hne Hall. unfold calcEntropy.
    assert (Hf : filter (fun b => Z.eqb b 1) bits = bits).
    { clear Hne. induction Hall as [|b l Hb _ IH]; [reflexivity|].
      simpl. rewrite Hb, IH. reflexivity. }
    rewrite Hf. destruct bits as [|b l]; [contradiction|].
    cbv match.
    assert (Hp : INR (length (b :: l)) / INR (length (b :: l)) = 1).
    { apply Rdiv_diag. apply not_0_INR. discriminate. }
    rewrite Hp.
    replace (Num.eq 1 1) with true by (symmetry; apply Num_eq_true; reflexivity).
    rewrite orb_true_r. reflexivity.
  - intros bits w Hlen H1 H0 p1; subst p1.
    assert (Hp : INR (length (filter (fun b => Z.eqb b 1) bits)) / INR (length bits) = / 2).
    { rewrite H1, Hlen, INR_64.
      replace (INR 32) with 32 by (rewrite INR_IZR_INZ; reflexivity). lra. }
    split; [rewrite Hp; apply shannon_half|].
    unfold calcEntropy. rewrite Hp. rewrite Hlen. cbv match.
    replace (Num.eq (/ 2) 0) with false by (symmetry; apply Num_eq_false; lra).
    replace (Num.eq (/ 2) 1) with false by (symmetry; apply Num_eq_false; lra).
    cbn [orb]. rewrite bind_run. rewrite shannon_half. reflexivity.
Qed.

(** ** The deviation score *)

(** C3, as stated, fails: at emf 0.25, temperature 21, motion 0 and a random
    draw of 0 the blend is 0, the jitter is -0.02, and the value returned is
    -0.02, below 0. *)
Lemma calcDeviationScore_below_zero :
  valid_world still_world
  /\ fst (calcDeviationScore 0.25 21 0 still_world) = - 0.02
  /\ ~ (0 <= fst (calcDeviationScore 0.25 21 0 still_world) <= 1).
Proof.
  assert (E : fst (calcDeviationScore 0.25 21 0 still_world) = - 0.02).
  { unfold calcDeviationScore. rewrite bind_run. cbn [ret fst Math_random still_world rand].
    replace ((0.25 - 0.25) / 4.5) with 0 by lra.
    replace ((21 - 21) / 12.0) with 0 by lra.
    replace (0 * 1.4) with 0 by lra.
    rewrite (Rmax_left 0 0) by lra.
    rewrite (Rmin_right 1 0) by lra.
    rewrite Rmin_right by lra. lra. }
  split; [exact valid_still_world|]. split; [exact E|].
  rewrite E. lra.
Qed.

(** C3, amended. For every emf and temperature and every motion that is not
    negative, with [Math.random()] in [0,1), the value returned by
    [calcDeviationScore] lies in [-0.02, 1]: it is the blend of the EMF
    excess (40%), the temperature drop (35%) and the motion (25%), each
    normalized into [0,1], plus a jitter in [-0.02, 0.02), capped at 1 and
    not bounded from below by 0. *)
Theorem calcDeviationScore_range :
  forall (emf temperature motion : R) (w : World),
    valid_world w ->
    0 <= motion ->
    let emfNorm := Rmin 1 (Rmax 0 ((emf - 0.25) / 4.5)) in
    let tempNorm := Rmin 1 (Rmax 0 ((21 - temperature) / 12)) in
    let motNorm := Rmin 1 (motion * 1.4) in
    let jitter := (rand w 0 - 0.5) * 0.04 in
    let v := fst (calcDeviationScore emf temperature motion w) in
    0 <= emfNorm <= 1 /\ 0 <= tempNorm <= 1 /\ 0 <= motNorm <= 1
    /\ - 0.02 <= jitter < 0.02
    /\ v = Rmin 1 (emfNorm * 0.40 + tempNorm * 0.35 + motNorm * 0.25 + jitter)
    /\ - 0.02 <= v <= 1.
Proof.
  intros emf temperature motion w Hw Hm emfNorm tempNorm motNorm jitter v.
  assert (He : 0 <= emfNorm <= 1).
  { subst emfNorm; split; [apply Rmin_glb; [lra | apply Rmax_l] | apply Rmin_l]. }
  assert (Ht : 0 <= tempNorm <= 1).
  { subst tempNorm; split; [apply Rmin_glb; [lra | apply Rmax_l] | apply Rmin_l]. }
  assert (Hmo : 0 <= motNorm <= 1).
  { subst motNorm; split; [apply Rmin_glb; lra | apply Rmin_l]. }
  assert (Hj : - 0.02 <= jitter < 0.02).
  { subst jitter. pose proof (Hw 0%nat). lra. }
  assert (Hv : v = Rmin 1 (emfNorm * 0.40 + tempNorm * 0.35 + motNorm * 0.25 + jitter)).
  { subst v. unfold calcDeviationScore. rewrite bind_run. cbn [ret fst Math_random].
    subst emfNorm tempNorm motNorm jitter.
    replace 12.0 with 12 by lra. reflexivity. }
  repeat split; try tauto.
  - rewrite Hv. apply Rmin_glb; lra.
  - rewrite Hv. apply Rmin_l.
Qed.

Lemma calcDeviationScore_range_witness :
  valid_world still_world
  /\ 0 <= 0.5
  /\ (let emfNorm := Rmin 1 (Rmax 0 ((3 - 0.25) / 4.5)) in
      let tempNorm := Rmin 1 (Rmax 0 ((21 - 19) / 12)) in
      let motNorm := Rmin 1 (0.5 * 1.4) in
      let jitter := (rand still_world 0 - 0.5) * 0.04 in
      let v := fst (calcDeviationScore 3 19 0.5 still_world) in
      0 <= emfNorm <= 1 /\ 0 <= tempNorm <= 1 /\ 0 <= motNorm <= 1
      /\ - 0.02 <= jitter < 0.02
      /\ v = Rmin 1 (emfNorm * 0.40 + tempNorm * 0.35 + motNorm * 0.25 + jitter)
      /\ - 0.02 <= v <= 1).
Proof.
  split; [exact valid_still_world|].
  split; [lra|].
  apply (calcDeviationScore_range 3 19 0.5 still_world).
  - exact valid_still_world.
  - lra.
Defined.

(** ** Sanity checks of the string model *)

Example simpleHash_abc : simpleHash (lit "abc") = lit "0B885C8B".
Proof. vm_compute. reflexivity. Qed.

Example toFixed_drop : toFixed 3.53125 1 = mkFixed false 35 1.
Proof.
  rewrite toFixed_nonneg by lra. f_equal.
  apply Zfloor_eq. simpl. lra.
Qed.

Example Fixed_toString_drop : Fixed_toString (mkFixed false 35 1) = lit "3.5".
Proof. vm_compute. reflexivity. Qed.

Example Fixed_toString_small : Fixed_toString (mkFixed true 4 2) = lit "-0.04".
Proof. vm_compute. reflexivity. Qed.

Example toStringRadix_36 : toUpperCase (toStringRadix 36 1700000000000) = lit "LOYW3V28".
Proof. vm_compute. reflexivity. Qed.

(** * Further properties of the quantum-metric generator *)

(** ** Bit generation *)

(** X1. [generateQRNGBits(count)] returns [count] bits, the k-th being 1 exactly
    when the k-th draw is above 0.5, and leaves the random source advanced by
    exactly [count] draws and the clock untouched. *)
Theorem generateQRNGBits_draws :
  forall (count : nat) (w : World),
    fst (generateQRNGBits count w)
    = map (fun k => if Num.gt (rand w k) 0.5 then 1%Z else 0%Z) (seq 0 count)
    /\ length (fst (generateQRNGBits count w)) = count
    /\ Forall is_bit (fst (generateQRNGBits count w))
    /\ (forall k, rand (snd (generateQRNGBits count w)) k = rand w (count + k)%nat)
    /\ clock (snd (generateQRNGBits count w)) = clock w.
Proof.
  intros count w.
  split; [|split; [apply generateQRNGBits_length|split; [apply generateQRNGBits_bits|]]].
  - revert w; induction count as [|n IH]; intros w; [reflexivity|].
    cbn [generateQRNGBits]. rewrite !bind_run. cbn [ret fst].
    rewrite IH. cbn [seq map]. f_equal.
    rewrite <- seq_shift, map_map. reflexivity.
  - revert w; induction count as [|n IH]; intros w; [split; reflexivity|].
    cbn [generateQRNGBits]. rewrite !bind_run. cbn [ret snd].
    destruct (IH (snd (Math_random w))) as [Hr Hc].
    split; [intros k; rewrite Hr; reflexivity | rewrite Hc; reflexivity].
Qed.

(** X2. [updateQRNGStream] keeps the length of a window of at least 4 elements
    and returns 4 elements for a shorter one; the elements from index 4 on
    move to the front unchanged and the last 4 are fresh bits. *)
Theorem updateQRNGStream_shift :
  forall (current : list Z) (w : World),
    let next := fst (updateQRNGStream current w) in
    length next = (length current - 4 + 4)%nat
    /\ (4 <= length current -> length next = length current)%nat
    /\ (length current < 4 -> length next = 4)%nat
    /\ (forall i, (i < length current - 4)%nat -> nth i next 0%Z = nth (i + 4) current 0%Z)
    /\ Forall is_bit (skipn (length current - 4) next).
Proof.
  intros current w next; subst next. rewrite updateQRNGStream_run. cbn [fst].
  assert (Hl : length (skipn 4 current ++ fst (generateQRNGBits 4 w))
               = (length current - 4 + 4)%nat)
    by (rewrite length_app, length_skipn, generateQRNGBits_length; reflexivity).
  split; [exact Hl|]. split; [lia|]. split; [lia|]. split.
  - intros i Hi. rewrite app_nth1 by (rewrite length_skipn; exact Hi).
    rewrite nth_skipn. f_equal. lia.
  - rewrite skipn_app, length_skipn, Nat.sub_diag.
    rewrite skipn_all2 by (rewrite length_skipn; lia).
    cbn [skipn app]. apply generateQRNGBits_bits.
Qed.

(** ** Repeated transitions *)

Lemma buildQuantumState_valid prev deviation w :
  valid_world w -> valid_world (snd (buildQuantumState prev deviation w)).
Proof.
  intros Hw. unfold buildQuantumState. rewrite !bind_run. cbn [ret snd].
  apply Math_random_valid.
  assert (Hw1 : valid_world (snd (updateQRNGStream (bits prev) w))).
  { rewrite updateQRNGStream_run. cbn [snd]. apply generateQRNGBits_valid, Hw. }
  pose proof (calcEntropy_valid (fst (updateQRNGStream (bits prev) w)) _ Hw1) as Hw2.
  revert Hw2. generalize (snd (calcEntropy (fst (updateQRNGStream (bits prev) w))
                                 (snd (updateQRNGStream (bits prev) w)))).
  intros w2 Hw2. unfold calcSValue. rewrite bind_run.
  destruct (Math_random_valid w2 Hw2) as [_ Hw3].
  destruct (Num.gt deviation 0.55).
  - rewrite bind_run. cbn [ret snd]. apply Math_random_valid, Hw3.
  - cbn [ret snd]. exact Hw3.
Qed.

Lemma run_states_cons prev d ds w :
  run_states prev (d :: ds) w
  = run_states (fst (buildQuantumState prev d w)) ds (snd (buildQuantumState prev d w)).
Proof. cbn [run_states]. rewrite bind_run. reflexivity. Qed.

(** X3. Across any number of transitions started from a window of 64 bits, with
    [Math.random()] in [0,1), the window keeps 64 bits, and after at least
    one transition the entropy is in [0,1], the sValue in [1.85, 2.828] and
    the deviation score the last one supplied, whatever scores were fed. *)
Theorem run_states_invariant :
  forall (deviations : list R) (prev : QuantumState) (w : World),
    valid_world w ->
    length (bits prev) = 64%nat ->
    let final := fst (run_states prev deviations w) in
    length (bits final) = 64%nat
    /\ valid_world (snd (run_states prev deviations w))
    /\ (deviations <> [] ->
        (exists e, entropy final = Num.Fin e /\ 0 <= e <= 1)
        /\ 1.85 <= sValue final <= 2.828
        /\ deviationScore final = last deviations 0).
Proof.
  induction deviations as [|d ds IH]; intros prev w Hw Hlen final; subst final.
  - split; [exact Hlen|]. split; [exact Hw|]. intros H; contradiction.
  - rewrite run_states_cons.
    destruct (buildQuantumState_fields prev d w) as (Hb & He & Hs & Hd).
    assert (Hlen' : length (bits (fst (buildQuantumState prev d w))) = 64%nat)
      by (rewrite Hb; apply updateQRNGStream_length, Hlen).
    pose proof (buildQuantumState_valid prev d w Hw) as Hw'.
    destruct (IH _ _ Hw' Hlen') as (H1 & H2 & H3).
    split; [exact H1|]. split; [exact H2|]. intros _.
    destruct ds as [|d' ds'].
    + cbn [run_states ret fst last].
      assert (Hw1 : valid_world (snd (updateQRNGStream (bits prev) w))).
      { rewrite updateQRNGStream_run. cbn [snd]. apply generateQRNGBits_valid, Hw. }
      split; [|split].
      * rewrite He. apply calcEntropy_bounds; [exact Hw1 | exact Hlen'].
      * rewrite Hs. apply calcSValue_bounds.
        apply (calcEntropy_valid (bits (fst (buildQuantumState prev d w)))), Hw1.
      * exact Hd.
    + destruct (H3 ltac:(discriminate)) as (E1 & E2 & E3).
      split; [exact E1|]. split; [exact E2|]. exact E3.
Qed.

Lemma run_states_invariant_witness :
  valid_world still_world
  /\ length (bits zero_state) = 64%nat
  /\ (let final := fst (run_states zero_state [0.2; 0.9] still_world) in
      length (bits final) = 64%nat
      /\ valid_world (snd (run_states zero_state [0.2; 0.9] still_world))
      /\ ([0.2; 0.9] <> [] ->
          (exists e, entropy final = Num.Fin e /\ 0 <= e <= 1)
          /\ 1.85 <= sValue final <= 2.828
          /\ deviationScore final = last [0.2; 0.9] 0)).
Proof.
  split; [exact valid_still_world|]. split; [reflexivity|].
  apply (run_states_invariant [0.2; 0.9] zero_state still_world).
  - exact valid_still_world.
  - reflexivity.
Defined.

Lemma Forall_skipn_bits (k : nat) (l : list Z) :
  Forall is_bit l -> Forall is_bit (skipn k l).
Proof.
  intros H. rewrite Forall_forall in *. intros x Hx. apply H.
  rewrite <- (firstn_skipn k l). apply in_or_app. right. exact Hx.
Qed.

(** The part of the window that still comes from the initial state shrinks
    by 4 elements per transition. *)
Lemma run_states_old_part deviations :
  forall prev w (m : nat),
    (exists old fresh, bits prev = old ++ fresh /\ Forall is_bit fresh
                       /\ (length old <= m)%nat) ->
    exists old fresh,
      bits (fst (run_states prev deviations w)) = old ++ fresh
      /\ Forall is_bit fresh
      /\ (length old <= m - 4 * length deviations)%nat.
Proof.
  induction deviations as [|d ds IH]; intros prev w m (old & fresh & Hb & Hf & Hm).
  - exists old, fresh. cbn [run_states ret fst length]. repeat split; auto. lia.
  - rewrite run_states_cons.
    destruct (buildQuantumState_fields prev d w) as (Hb' & _).
    rewrite updateQRNGStream_run in Hb'. cbn [fst] in Hb'.
    destruct (IH (fst (buildQuantumState prev d w)) (snd (buildQuantumState prev d w))
                 (m - 4)%nat) as (old' & fresh' & H1 & H2 & H3).
    + exists (skipn 4 old), (skipn (4 - length old) fresh ++ fst (generateQRNGBits 4 w)).
      split; [|split].
      * rewrite Hb', Hb, skipn_app, app_assoc. reflexivity.
      * apply Forall_app. split; [apply Forall_skipn_bits, Hf|].
        apply generateQRNGBits_bits.
      * rewrite length_skipn. lia.
    + exists old', fresh'. repeat split; auto. cbn [length]. lia.
Qed.

(** X4. Once a window of [n] elements has gone through at least [n / 4]
    transitions (16 for a window of 64), every element of it is a generated
    bit, 0 or 1, whatever the initial window held. *)
Theorem run_states_flushes_window :
  forall (deviations : list R) (prev : QuantumState) (w : World),
    (length (bits prev) <= 4 * length deviations)%nat ->
    Forall is_bit (bits (fst (run_states prev deviations w))).
Proof.
  intros deviations prev w H.
  destruct (run_states_old_part deviations prev w (length (bits prev)))
    as (old & fresh & Hb & Hf & Hl).
  - exists (bits prev), []. rewrite app_nil_r. repeat split; auto.
  - assert (old = []) by (destruct old; [reflexivity | cbn [length] in Hl; lia]).
    subst old. rewrite Hb. exact Hf.
Qed.

Lemma run_states_flushes_window_witness :
  (length (bits stale_state) <= 4 * length (repeat 0.5%R 16))%nat
  /\ Forall is_bit (bits (fst (run_states stale_state (repeat 0.5 16) still_world))).
Proof.
  split.
  - cbn. lia.
  - apply (run_states_flushes_window (repeat 0.5 16) stale_state still_world).
    cbn. lia.
Defined.

(** ** The entropy of an arbitrary window *)

Lemma ln_le_minus_1 y : 0 < y -> ln y <= y - 1.
Proof.
  intros Hy. pose proof (exp_ineq1_le (y - 1)) as H.
  replace (1 + (y - 1)) with y in H by lra.
  destruct (Rle_dec (ln y) (y - 1)) as [Hl|Hl]; [exact Hl|].
  apply Rnot_le_lt, exp_increasing in Hl. rewrite exp_ln in Hl by exact Hy. lra.
Qed.

(** The binary entropy never exceeds one bit. *)
Lemma shannon_le_1 p : 0 < p < 1 -> shannon p (1 - p) <= 1.
Proof.
  intros [H0 H1]. unfold shannon, Num.log2.
  pose proof ln_2_pos as H2.
  assert (Ha : p * ln (/ (2 * p)) <= / 2 - p).
  { pose proof (ln_le_minus_1 (/ (2 * p))
                  ltac:(apply Rinv_0_lt_compat; lra)) as H.
    apply (Rmult_le_compat_l p) in H; [|lra].
    replace (p * (/ (2 * p) - 1)) with (/ 2 - p) in H by (field; lra). exact H. }
  assert (Hb : (1 - p) * ln (/ (2 * (1 - p))) <= / 2 - (1 - p)).
  { pose proof (ln_le_minus_1 (/ (2 * (1 - p)))
                  ltac:(apply Rinv_0_lt_compat; lra)) as H.
    apply (Rmult_le_compat_l (1 - p)) in H; [|lra].
    replace ((1 - p) * (/ (2 * (1 - p)) - 1)) with (/ 2 - (1 - p)) in H by (field; lra).
    exact H. }
  rewrite ln_Rinv, ln_mult in Ha by lra.
  rewrite ln_Rinv, ln_mult in Hb by lra.
  assert (Hs : - (p * ln p + (1 - p) * ln (1 - p)) <= ln 2) by lra.
  apply (Rmult_le_reg_r (ln 2)); [exact H2|].
  replace (- (p * (ln p / ln 2) + (1 - p) * (ln (1 - p) / ln 2)) * ln 2)
    with (- (p * ln p + (1 - p) * ln (1 - p))) by (field; lra).
  lra.
Qed.

Lemma ones_fraction bits :
  bits <> [] ->
  let p1 := INR (ones bits) / INR (length bits) in
  0 <= p1 <= 1
  /\ (p1 <> 0 -> p1 <> 1 ->
      / INR (length bits) <= p1 /\ / INR (length bits) <= 1 - p1).
Proof.
  intros Hne p1.
  assert (Hn : (1 <= length bits)%nat) by (destruct bits; [contradiction | cbn; lia]).
  pose proof (ones_le bits) as Hle.
  assert (Hn' : 1 <= INR (length bits)) by (apply (le_INR 1); exact Hn).
  assert (Hle' : INR (ones bits) <= INR (length bits)) by (apply le_INR; exact Hle).
  pose proof (pos_INR (ones bits)) as Hpos.
  assert (Hinv : 0 < / INR (length bits)) by (apply Rinv_0_lt_compat; lra).
  assert (Hone : INR (length bits) * / INR (length bits) = 1) by (apply Rinv_r; lra).
  unfold p1, Rdiv. split.
  - split; [apply Rmult_le_pos; lra|]. rewrite <- Hone.
    apply Rmult_le_compat_r; lra.
  - intros H0 H1.
    assert (Ho : (1 <= ones bits)%nat).
    { destruct (ones bits) eqn:E; [|lia]. exfalso. apply H0.
      cbn [INR]. unfold Rdiv. apply Rmult_0_l. }
    assert (Ho' : (ones bits + 1 <= length bits)%nat).
    { destruct (Nat.eq_dec (ones bits) (length bits)) as [E|E]; [|lia].
      exfalso. apply H1. rewrite E. unfold Rdiv. exact Hone. }
    apply (le_INR 1) in Ho. apply le_INR in Ho'. rewrite plus_INR in Ho'.
    cbn [INR] in Ho, Ho'.
    set (i := / INR (length bits)) in *.
    assert (H2 : (INR (ones bits) + 1) * i <= INR (length bits) * i)
      by (apply Rmult_le_compat_r; lra).
    assert (H3 : 1 * i <= INR (ones bits) * i)
      by (apply Rmult_le_compat_r; lra).
    split; lra.
Qed.

Lemma window_entropy_range bits :
  bits <> [] ->
  window_entropy bits <= 1
  /\ (window_entropy bits = 0 \/ / INR (length bits) <= window_entropy bits).
Proof.
  intros Hne. unfold window_entropy.
  destruct (ones_fraction bits Hne) as [Hp Hq].
  destruct (Num.eq _ 0 || Num.eq _ 1) eqn:E.
  - split; [lra | left; reflexivity].
  - num_hyps. specialize (Hq H H0). split.
    + apply shannon_le_1. lra.
    + right. apply shannon_lower; lra.
Qed.

Lemma calcEntropy_run bits w :
  bits <> [] ->
  fst (calcEntropy bits w)
  = Num.Fin (let p1 := INR (ones bits) / INR (length bits) in
             if Num.eq p1 0 || Num.eq p1 1 then 0
             else Rmin 1 (shannon p1 (1 - p1) + (rand w 0 - 0.5) * 0.015)).
Proof.
  intros Hne. unfold calcEntropy. fold (ones bits).
  destruct bits as [|b l]; [contradiction|].
  cbv zeta. destruct (length (b :: l)) eqn:El; [discriminate|].
  cbv match.
  destruct (Num.eq _ 0 || Num.eq _ 1); [reflexivity|].
  rewrite bind_run. reflexivity.
Qed.

(** X5. On every non-empty window, with [Math.random()] in [0,1), [calcEntropy]
    returns a number within 0.0075 of the Shannon entropy of the window and
    at most 1; it is 0 on a constant window and otherwise at least
    1/length - 0.0075, so never negative for windows of up to 133
    elements. *)
Theorem calcEntropy_accuracy :
  forall (bits : list Z) (w : World),
    valid_world w ->
    bits <> [] ->
    exists e,
      fst (calcEntropy bits w) = Num.Fin e
      /\ Rabs (e - window_entropy bits) <= 0.0075
      /\ e <= 1
      /\ (window_entropy bits = 0 -> e = 0)
      /\ (window_entropy bits <> 0 -> / INR (length bits) - 0.0075 <= e)
      /\ ((length bits <= 133)%nat -> 0 <= e).
Proof.
  intros bits w Hw Hne.
  rewrite (calcEntropy_run bits w Hne).
  destruct (window_entropy_range bits Hne) as [Hle Hlow].
  pose proof (Hw 0%nat) as Hr.
  assert (Hn : (1 <= length bits)%nat) by (destruct bits; [contradiction | cbn; lia]).
  assert (Hn' : 1 <= INR (length bits)) by (apply (le_INR 1); exact Hn).
  assert (Hinv : 0 < / INR (length bits)) by (apply Rinv_0_lt_compat; lra).
  eexists; split; [reflexivity|].
  unfold window_entropy in *. cbv zeta.
  destruct (Num.eq _ 0 || Num.eq _ 1) eqn:E.
  - rewrite Rminus_diag, Rabs_R0.
    repeat split; intros; try lra; try contradiction.
  - set (h := shannon _ _) in *.
    set (j := (rand w 0 - 0.5) * 0.015).
    assert (Hj : - 0.0075 <= j < 0.0075) by (unfold j; lra).
    assert (Hm1 : Rmin 1 (h + j) <= h + j) by apply Rmin_r.
    assert (Hm2 : Rmin 1 (h + j) <= 1) by apply Rmin_l.
    assert (Hm3 : h - 0.0075 <= Rmin 1 (h + j)) by (apply Rmin_glb; lra).
    assert (Hh : / INR (length bits) <= h).
    { destruct Hlow as [Hz|Hl]; [|exact Hl].
      exfalso. num_hyps.
      destruct (ones_fraction bits Hne) as [Hp Hq]. specialize (Hq H H0).
      pose proof (shannon_lower (INR (ones bits) / INR (length bits))
                    (/ INR (length bits)) ltac:(lra) ltac:(lra) ltac:(lra)) as Hs.
      fold h in Hs. lra. }
    split; [apply Rabs_le; lra|].
    split; [exact Hm2|].
    split; [intros Hz; lra|].
    split; [intros _; lra|].
    intros H133.
    assert (H133' : INR (length bits) <= 133).
    { apply le_INR in H133.
      replace (INR 133) with 133 in H133 by (rewrite INR_IZR_INZ; reflexivity).
      exact H133. }
    assert (/ 133 <= / INR (length bits)) by (apply Rinv_le_contravar; lra).
    lra.
Qed.

Lemma calcEntropy_accuracy_witness :
  valid_world still_world
  /\ [1%Z; 0%Z; 0%Z] <> []
  /\ exists e,
       fst (calcEntropy [1%Z; 0%Z; 0%Z] still_world) = Num.Fin e
       /\ Rabs (e - window_entropy [1%Z; 0%Z; 0%Z]) <= 0.0075
       /\ e <= 1
       /\ (window_entropy [1%Z; 0%Z; 0%Z] = 0 -> e = 0)
       /\ (window_entropy [1%Z; 0%Z; 0%Z] <> 0
           -> / INR (length [1%Z; 0%Z; 0%Z]) - 0.0075 <= e)
       /\ ((length [1%Z; 0%Z; 0%Z] <= 133)%nat -> 0 <= e).
Proof.
  split; [exact valid_still_world|].
  split; [discriminate|].
  apply (calcEntropy_accuracy [1%Z; 0%Z; 0%Z] still_world).
  - exact valid_still_world.
  - discriminate.
Defined.

Lemma calcEntropy_nonempty bits w :
  bits <> [] ->
  calcEntropy bits w
  = let p1 := INR (ones bits) / INR (length bits) in
    if Num.eq p1 0 || Num.eq p1 1 then (Num.Fin 0, w)
    else (Num.Fin (Rmin 1 (shannon p1 (1 - p1) + (rand w 0 - 0.5) * 0.015)),
          snd (Math_random w)).
Proof.
  intros Hne. unfold calcEntropy. fold (ones bits).
  destruct bits as [|b l]; [contradiction|].
  cbv zeta. destruct (length (b :: l)) eqn:El; [discriminate|].
  cbv match.
  destruct (Num.eq _ 0 || Num.eq _ 1); [reflexivity|].
  rewrite bind_run. reflexivity.
Qed.

Lemma ones_flip bits :
  Forall is_bit bits -> (ones (map flip_bit bits) + ones bits = length bits)%nat.
Proof.
  unfold ones. induction 1 as [|b l Hb _ IH]; [reflexivity|].
  cbn [map filter length].
  destruct Hb as [-> | ->]; cbn [flip_bit Z.sub Z.eqb Z.opp Z.add Z.pos_sub Pos.eqb length];
    cbn; lia.
Qed.

(** X6. The entropy does not tell a window from its complement: on a window of
    bits, exchanging every 0 and 1 leaves the result of [calcEntropy] and the
    random numbers it draws unchanged. *)
Theorem calcEntropy_complement :
  forall (bits : list Z) (w : World),
    Forall is_bit bits ->
    calcEntropy (map flip_bit bits) w = calcEntropy bits w.
Proof.
  intros bits w Hb.
  destruct bits as [|b l] eqn:Eb; [reflexivity|]. rewrite <- Eb in *.
  assert (Hne : bits <> []) by (rewrite Eb; discriminate).
  assert (Hne' : map flip_bit bits <> []) by (rewrite Eb; discriminate).
  rewrite (calcEntropy_nonempty _ w Hne'), (calcEntropy_nonempty _ w Hne).
  rewrite length_map. cbv zeta.
  pose proof (ones_flip bits Hb) as Hf.
  assert (Hn : 1 <= INR (length bits)).
  { apply (le_INR 1). rewrite Eb. cbn. lia. }
  assert (Hp : INR (ones (map flip_bit bits)) / INR (length bits)
               = 1 - INR (ones bits) / INR (length bits)).
  { rewrite <- Hf at 1 2. rewrite plus_INR.
    replace (INR (ones (map flip_bit bits)))
      with (INR (ones (map flip_bit bits)) + INR (ones bits) - INR (ones bits)) at 1
      by lra.
    rewrite <- plus_INR, Hf. field. lra. }
  rewrite Hp. set (p := INR (ones bits) / INR (length bits)).
  destruct (Num.eq p 0) eqn:E0; destruct (Num.eq p 1) eqn:E1;
    destruct (Num.eq (1 - p) 0) eqn:E2; destruct (Num.eq (1 - p) 1) eqn:E3;
    num_hyps; try lra; cbn [orb]; try reflexivity.
  unfold shannon. replace (1 - (1 - p)) with p by lra.
  rewrite (Rplus_comm ((1 - p) * Num.log2 (1 - p))). reflexivity.
Qed.

Lemma calcEntropy_complement_witness :
  Forall is_bit [1%Z; 0%Z; 0%Z]
  /\ calcEntropy (map flip_bit [1%Z; 0%Z; 0%Z]) still_world
     = calcEntropy [1%Z; 0%Z; 0%Z] still_world.
Proof.
  assert (H : Forall is_bit [1%Z; 0%Z; 0%Z])
    by (repeat constructor; unfold is_bit; auto).
  split; [exact H|].
  apply (calcEntropy_complement [1%Z; 0%Z; 0%Z] still_world H).
Defined.

(** ** The S-value *)

(** X7. With [Math.random()] in [0,1) the S-value falls in one of two separate
    bands: above a deviation of 0.55 it lies in (2.345, 2.828], beyond the
    classical bound 2; otherwise it lies in [1.85, 2.10). *)
Theorem calcSValue_regimes :
  forall (deviation : R) (w : World),
    valid_world w ->
    (deviation > 0.55 -> 2.345 < fst (calcSValue deviation w) <= 2.828)
    /\ (deviation <= 0.55 -> 1.85 <= fst (calcSValue deviation w) < 2.10).
Proof.
  intros deviation w Hw. unfold calcSValue. rewrite bind_run.
  destruct (Math_random_valid w Hw) as [Hr Hw'].
  destruct (Math_random_valid _ Hw') as [Hr' _].
  destruct (Num.gt deviation 0.55) eqn:E; num_hyps.
  - rewrite bind_run. cbn [ret fst]. split; [|intros; lra].
    intros _. split; [apply Rmin_glb_lt; lra | apply Rmin_l].
  - cbn [ret fst]. split; [intros; lra|]. intros _. lra.
Qed.

Lemma calcSValue_regimes_witness :
  valid_world still_world
  /\ (0.9 > 0.55 -> 2.345 < fst (calcSValue 0.9 still_world) <= 2.828)
  /\ (0.9 <= 0.55 -> 1.85 <= fst (calcSValue 0.9 still_world) < 2.10).
Proof.
  split; [exact valid_still_world|].
  apply (calcSValue_regimes 0.9 still_world valid_still_world).
Defined.

(** X8. Under the same random draws a larger deviation score never gives a
    smaller S-value. *)
Theorem calcSValue_monotone :
  forall (d1 d2 : R) (w : World),
    valid_world w ->
    d1 <= d2 ->
    fst (calcSValue d1 w) <= fst (calcSValue d2 w).
Proof.
  intros d1 d2 w Hw Hd. unfold calcSValue. rewrite !bind_run.
  destruct (Math_random_valid w Hw) as [Hr Hw'].
  destruct (Math_random_valid _ Hw') as [Hr' _].
  destruct (Num.gt d1 0.55) eqn:E1; destruct (Num.gt d2 0.55) eqn:E2; num_hyps;
    rewrite ?bind_run; cbn [ret fst]; try lra.
  - apply Rmin_glb; [apply Rmin_l|].
    eapply Rle_trans; [apply Rmin_r|]. lra.
  - apply Rmin_glb; lra.
Qed.

Lemma calcSValue_monotone_witness :
  valid_world still_world
  /\ 0.3 <= 0.9
  /\ fst (calcSValue 0.3 still_world) <= fst (calcSValue 0.9 still_world).
Proof.
  split; [exact valid_still_world|]. split; [lra|].
  apply (calcSValue_monotone 0.3 0.9 still_world valid_still_world). lra.
Defined.

(** ** The deviation score *)

Lemma Rmin_mono_r a x y : x <= y -> Rmin a x <= Rmin a y.
Proof.
  intros H. apply Rmin_glb; [apply Rmin_l|].
  eapply Rle_trans; [apply Rmin_r | exact H].
Qed.

Lemma Rmax_mono_r a x y : x <= y -> Rmax a x <= Rmax a y.
Proof.
  intros H. apply Rmax_lub; [apply Rmax_l|].
  eapply Rle_trans; [exact H | apply Rmax_r].
Qed.

Lemma calcDeviationScore_run emf temperature motion w :
  fst (calcDeviationScore emf temperature motion w)
  = Rmin 1 (Rmin 1 (Rmax 0 ((emf - 0.25) / 4.5)) * 0.40
            + Rmin 1 (Rmax 0 ((21 - temperature) / 12.0)) * 0.35
            + Rmin 1 (motion * 1.4) * 0.25
            + (rand w 0 - 0.5) * 0.04).
Proof. unfold calcDeviationScore. rewrite bind_run. reflexivity. Qed.

(** X9. Under the same random draw the deviation score never decreases when the
    EMF rises, the temperature falls or the motion rises. *)
Theorem calcDeviationScore_monotone :
  forall (emf1 emf2 t1 t2 m1 m2 : R) (w : World),
    emf1 <= emf2 -> t2 <= t1 -> m1 <= m2 ->
    fst (calcDeviationScore emf1 t1 m1 w) <= fst (calcDeviationScore emf2 t2 m2 w).
Proof.
  intros emf1 emf2 t1 t2 m1 m2 w He Ht Hm.
  rewrite !calcDeviationScore_run.
  assert (H1 : Rmin 1 (Rmax 0 ((emf1 - 0.25) / 4.5))
               <= Rmin 1 (Rmax 0 ((emf2 - 0.25) / 4.5)))
    by (apply Rmin_mono_r, Rmax_mono_r; lra).
  assert (H2 : Rmin 1 (Rmax 0 ((21 - t1) / 12.0))
               <= Rmin 1 (Rmax 0 ((21 - t2) / 12.0)))
    by (apply Rmin_mono_r, Rmax_mono_r; lra).
  assert (H3 : Rmin 1 (m1 * 1.4) <= Rmin 1 (m2 * 1.4))
    by (apply Rmin_mono_r; lra).
  apply Rmin_mono_r. lra.
Qed.

Lemma calcDeviationScore_monotone_witness :
  0.2 <= 3 /\ 18 <= 21 /\ 0 <= 0.5
  /\ fst (calcDeviationScore 0.2 21 0 still_world)
     <= fst (calcDeviationScore 3 18 0.5 still_world).
Proof.
  split; [lra|]. split; [lra|]. split; [lra|].
  apply (calcDeviationScore_monotone 0.2 3 21 18 0 0.5 still_world); lra.
Defined.

Lemma calcSValue_low deviation w :
  valid_world w -> deviation <= 0.55 -> fst (calcSValue deviation w) < 2.10.
Proof.
  intros Hw Hd. unfold calcSValue. rewrite bind_run.
  destruct (Math_random_valid w Hw) as [Hr _].
  replace (Num.gt deviation 0.55) with false by (symmetry; apply Num_gt_false; exact Hd).
  cbn [ret fst]. lra.
Qed.

(** X10. One sensor channel alone cannot reach the elevated S-value band: when
    at least two of the three channels are at rest (EMF at most 0.25,
    temperature at least 21, motion at most 0) the deviation score stays
    below 0.55 and the S-value computed from it below 2.10. *)
Theorem single_channel_stays_classical :
  forall (emf temperature motion : R) (w w' : World),
    valid_world w -> valid_world w' ->
    (emf <= 0.25 /\ motion <= 0) \/ (emf <= 0.25 /\ 21 <= temperature)
    \/ (21 <= temperature /\ motion <= 0) ->
    let d := fst (calcDeviationScore emf temperature motion w) in
    d < 0.55 /\ fst (calcSValue d w') < 2.10.
Proof.
  intros emf temperature motion w w' Hw Hw' Hrest d.
  assert (Hd : d < 0.55).
  { subst d. rewrite calcDeviationScore_run.
    pose proof (Hw 0%nat) as Hr.
    assert (He : Rmin 1 (Rmax 0 ((emf - 0.25) / 4.5)) <= 1) by apply Rmin_l.
    assert (Ht : Rmin 1 (Rmax 0 ((21 - temperature) / 12.0)) <= 1) by apply Rmin_l.
    assert (Hm : Rmin 1 (motion * 1.4) <= 1) by apply Rmin_l.
    assert (He0 : emf <= 0.25 -> Rmin 1 (Rmax 0 ((emf - 0.25) / 4.5)) <= 0).
    { intros H. eapply Rle_trans; [apply Rmin_r|]. apply Rmax_lub; lra. }
    assert (Ht0 : 21 <= temperature
                  -> Rmin 1 (Rmax 0 ((21 - temperature) / 12.0)) <= 0).
    { intros H. eapply Rle_trans; [apply Rmin_r|]. apply Rmax_lub; lra. }
    assert (Hm0 : motion <= 0 -> Rmin 1 (motion * 1.4) <= 0).
    { intros H. eapply Rle_trans; [apply Rmin_r|]. lra. }
    eapply Rle_lt_trans; [apply Rmin_r|].
    destruct Hrest as [[A B]|[[A B]|[A B]]];
      [specialize (He0 A); specialize (Hm0 B)
      |specialize (He0 A); specialize (Ht0 B)
      |specialize (Ht0 A); specialize (Hm0 B)]; lra. }
  split; [exact Hd|].
  apply calcSValue_low; [exact Hw' | lra].
Qed.

Lemma single_channel_stays_classical_witness :
  valid_world still_world /\ valid_world still_world
  /\ ((14 <= 0.25 /\ 0 <= 0) \/ (14 <= 0.25 /\ 21 <= 21) \/ (21 <= 21 /\ 0 <= 0))
  /\ (let d := fst (calcDeviationScore 14 21 0 still_world) in
      d < 0.55 /\ fst (calcSValue d still_world) < 2.10).
Proof.
  split; [exact valid_still_world|]. split; [exact valid_still_world|].
  split; [right; right; lra|].
  apply (single_channel_stays_classical 14 21 0 still_world still_world
           valid_still_world valid_still_world).
  right; right; lra.
Defined.

(** * Further properties of the sensor simulator and the detector *)

(** ** [clamp] *)

(** X11. [clamp] returns its argument when it lies between the bounds, stays
    between them whenever they are ordered, and returns the upper bound when
    they are not. *)
Theorem clamp_spec :
  forall v lo hi : R,
    (lo <= hi -> lo <= clamp v lo hi <= hi)
    /\ (lo <= v <= hi -> clamp v lo hi = v)
    /\ (v <= lo <= hi -> clamp v lo hi = lo)
    /\ (lo <= hi <= v -> clamp v lo hi = hi)
    /\ (hi < lo -> clamp v lo hi = hi)
    /\ (lo <= hi -> clamp (clamp v lo hi) lo hi = clamp v lo hi).
Proof.
  intros v lo hi. unfold clamp, Rmin, Rmax.
  repeat split; intros;
    repeat match goal with
    | |- context [Rle_dec ?a ?b] => destruct (Rle_dec a b)
    | H : context [Rle_dec ?a ?b] |- _ => destruct (Rle_dec a b)
    end; lra.
Qed.

Lemma clamp_range v lo hi : lo <= hi -> lo <= clamp v lo hi <= hi.
Proof.
  intros H. unfold clamp. split; [|apply Rmin_l].
  apply Rmin_glb; [exact H | apply Rmax_l].
Qed.

Lemma clamp_le_max v lo hi : clamp v lo hi <= Rmax lo v.
Proof. apply Rmin_r. Qed.

Lemma clamp_ge_min v lo hi : Rmin hi v <= clamp v lo hi.
Proof. unfold clamp. apply Rmin_mono_r, Rmax_r. Qed.

(** ** [simulateSensors] *)

Ltac split_conditions :=
  repeat match goal with
  | |- context [if Num.gt ?a ?b then _ else _] => destruct (Num.gt a b) eqn:?
  | |- context [if Num.lt ?a ?b then _ else _] => destruct (Num.lt a b) eqn:?
  end.

Ltac run_simulator :=
  unfold simulateSensors, noise, event_strength, bind, ret, Math_random, Date_now;
  split_conditions;
  cbn [fst snd rand clock emf temperature motion pressure audioLevel timestamp
       eventPhase eventTimer] in *.

(** Replaces every [clamp] of the goal by a number known to lie between its
    bounds. *)
Ltac bound_clamps :=
  repeat match goal with
  | |- context [clamp ?v ?lo ?hi] =>
      let H := fresh "Hc" in
      let c := fresh "c" in
      pose proof (clamp_range v lo hi ltac:(lra)) as H;
      set (c := clamp v lo hi) in *; clearbody c
  end.

(** X12. Whatever the previous reading, the elapsed time and the event state, the
    reading produced lies in the simulator's ranges: EMF in [0.05, 14],
    temperature in [13, 28], motion in [0, 1], pressure in [1008, 1018] and
    audio level in [-80, 0]; its timestamp is the next clock value. *)
Theorem simulateSensors_ranges :
  forall (st : EventState) (prev : SensorReading) (elapsed : R) (w : World),
    let r := fst (fst (simulateSensors st prev elapsed w)) in
    0.05 <= emf r <= 14
    /\ 13 <= temperature r <= 28
    /\ 0 <= motion r <= 1
    /\ 1008 <= pressure r <= 1018
    /\ - 80 <= audioLevel r <= 0
    /\ timestamp r = clock w 0.
Proof.
  intros st prev elapsed w r; subst r.
  run_simulator; (repeat split; try reflexivity); bound_clamps; lra.
Qed.

(** X13. The event timer never stays above the event interval, and with time
    running forward the event phase never exceeds 9000 ms once it is at most
    that, so that the event strength stays in [0, 1].  Below the interval the
    timer accumulates the elapsed time and a running event phase counts
    down; past it a draw below 0.35 starts an event of 9000 ms and resets the
    timer, any other draw sets the timer back by 12000 ms. *)
Theorem simulateSensors_event_state :
  forall (st : EventState) (prev : SensorReading) (elapsed : R) (w : World),
    let st' := snd (fst (simulateSensors st prev elapsed w)) in
    eventTimer st' <= EVENT_INTERVAL_MS
    /\ (0 <= elapsed -> eventPhase st <= 9000 ->
        eventPhase st' <= 9000 /\ 0 <= event_strength (eventPhase st') <= 1)
    /\ (eventTimer st + elapsed <= EVENT_INTERVAL_MS ->
        eventTimer st' = eventTimer st + elapsed
        /\ (eventPhase st <= 0 -> eventPhase st' = eventPhase st)
        /\ (0 < eventPhase st -> eventPhase st' = eventPhase st - elapsed))
    /\ (eventTimer st + elapsed > EVENT_INTERVAL_MS ->
        (rand w 0 < 0.35 -> eventTimer st' = 0 /\ eventPhase st' = 9000 - elapsed)
        /\ (0.35 <= rand w 0 -> eventTimer st' = EVENT_INTERVAL_MS - 12000)).
Proof.
  intros st prev elapsed w st'; subst st'.
  run_simulator; split_conditions; num_hyps; unfold EVENT_INTERVAL_MS in *;
    repeat split; intros; try lra.
Qed.

Lemma Rabs_le_bounds a b : Rabs a <= b -> - b <= a <= b.
Proof. unfold Rabs. destruct (Rcase_abs a); lra. Qed.

Lemma clamp_ext v v' lo lo' hi hi' :
  v = v' -> lo = lo' -> hi = hi' -> clamp v lo hi = clamp v' lo' hi'.
Proof. intros -> -> ->. reflexivity. Qed.

(** Outside an event every channel moves by a small noise only. *)
Lemma simulateSensors_quiet_fields st prev elapsed w :
  valid_world w ->
  eventPhase (snd (fst (simulateSensors st prev elapsed w))) <= 0 ->
  let r := fst (fst (simulateSensors st prev elapsed w)) in
  exists n1 n2 n3 n5,
    Rabs n1 <= 0.025 /\ Rabs n2 <= 0.04 /\ Rabs n3 <= 0.01 /\ Rabs n5 <= 2
    /\ emf r = clamp (emf prev + n1) 0.05 14
    /\ temperature r = clamp (temperature prev + n2) 13 28
    /\ motion r = clamp (Rabs (motion prev + n3)) 0 1
    /\ audioLevel r = clamp (- 54 + n5) (- 80) 0.
Proof.
  intros Hw.
  pose proof (Hw 0%nat). pose proof (Hw 1%nat). pose proof (Hw 2%nat).
  pose proof (Hw 3%nat). pose proof (Hw 4%nat). pose proof (Hw 5%nat).
  run_simulator; num_hyps; intros Hq; try (exfalso; lra);
    match goal with
    | |- exists n1 n2 n3 n5, _ /\ _ /\ _ /\ _
                             /\ clamp (_ + ?a + 0) _ _ = _
                             /\ clamp (_ + ?b - 0) _ _ = _
                             /\ clamp (Rabs (_ + ?c + 0)) _ _ = _
                             /\ clamp (_ + ?d + 0) _ _ = _ =>
        exists a, b, c, d
    end;
    (split; [apply Rabs_le; lra|]);
    (split; [apply Rabs_le; lra|]);
    (split; [apply Rabs_le; lra|]);
    (split; [apply Rabs_le; lra|]);
    (split; [apply clamp_ext; lra|]);
    (split; [apply clamp_ext; lra|]);
    (split; [apply clamp_ext; [f_equal; lra | lra | lra]|]);
    (apply clamp_ext; lra).
Qed.

(** X14. Outside an event the simulator never produces an anomaly: when the step
    ends with no event phase left and the previous reading has a temperature
    of at most 28 and a motion that is not negative, [detectAnomaly] on the
    new reading and the previous one returns none. *)
Theorem simulateSensors_quiet_no_anomaly :
  forall (st : EventState) (prev : SensorReading) (elapsed : R) (w w' : World),
    valid_world w ->
    temperature prev <= 28 ->
    0 <= motion prev ->
    eventPhase (snd (fst (simulateSensors st prev elapsed w))) <= 0 ->
    fst (detectAnomaly (fst (fst (simulateSensors st prev elapsed w))) (Some prev) w')
    = None.
Proof.
  intros st prev elapsed w w' Hw Ht Hm Hq.
  destruct (simulateSensors_quiet_fields st prev elapsed w Hw Hq)
    as (n1 & n2 & n3 & n5 & B1 & B2 & B3 & B5 & E1 & E2 & E3 & E5).
  apply Rabs_le_bounds in B1, B2, B3, B5.
  apply detectAnomaly_none_iff.
  apply first_candidate_cases.
  - intros [A B]. rewrite E1 in A.
    pose proof (clamp_le_max (emf prev + n1) 0.05 14) as Hc.
    assert (Rmax 0.05 (emf prev + n1) <= 2) by (apply Rmax_lub; lra). lra.
  - unfold temperature_drop_fires. rewrite E2.
    pose proof (clamp_ge_min (temperature prev + n2) 13 28) as Hc.
    assert (temperature prev - 0.04 <= Rmin 28 (temperature prev + n2))
      by (apply Rmin_glb; lra). lra.
  - intros [A B]. rewrite E3 in A.
    pose proof (clamp_le_max (Rabs (motion prev + n3)) 0 1) as Hc.
    assert (Rabs (motion prev + n3) <= 0.1) by (apply Rabs_le; lra).
    assert (Rmax 0 (Rabs (motion prev + n3)) <= 0.1) by (apply Rmax_lub; lra). lra.
  - intros [A B]. rewrite E5 in A.
    pose proof (clamp_le_max (- 54 + n5) (- 80) 0) as Hc.
    assert (Rmax (- 80) (- 54 + n5) <= - 52) by (apply Rmax_lub; lra). lra.
Qed.

Lemma simulateSensors_idle_phase st prev elapsed w :
  eventTimer st + elapsed <= EVENT_INTERVAL_MS ->
  eventPhase st <= 0 ->
  eventPhase (snd (fst (simulateSensors st prev elapsed w))) = eventPhase st.
Proof.
  run_simulator; num_hyps; intros; try reflexivity; lra.
Qed.

Lemma simulateSensors_quiet_no_anomaly_witness :
  valid_world still_world
  /\ temperature (quiet 1013 0) <= 28
  /\ 0 <= motion (quiet 1013 0)
  /\ eventPhase (snd (fst (simulateSensors (mkEventState 0 0) (quiet 1013 0) 500
                             still_world))) <= 0
  /\ fst (detectAnomaly
            (fst (fst (simulateSensors (mkEventState 0 0) (quiet 1013 0) 500
                         still_world)))
            (Some (quiet 1013 0)) still_world) = None.
Proof.
  assert (Hq : eventPhase (snd (fst (simulateSensors (mkEventState 0 0) (quiet 1013 0)
                                       500 still_world))) <= 0).
  { rewrite simulateSensors_idle_phase; cbn [eventTimer eventPhase];
      unfold EVENT_INTERVAL_MS; lra. }
  split; [exact valid_still_world|].
  split; [cbn; lra|]. split; [cbn; lra|]. split; [exact Hq|].
  apply (simulateSensors_quiet_no_anomaly (mkEventState 0 0) (quiet 1013 0) 500
           still_world still_world valid_still_world).
  - cbn; lra.
  - cbn; lra.
  - exact Hq.
Defined.

(** ** More on the detector *)

(** X15. With a previous reading present and neither the EMF nor the temperature
    predicate firing, [detectAnomaly] returns a motion_surge exactly when the
    current motion is above 0.55 and the previous one below 0.08; its
    severity is high exactly when the current motion is above 0.8. *)
Theorem detectAnomaly_motion_surge :
  forall (current prev : SensorReading) (w : World),
    ~ emf_spike_fires current prev ->
    ~ temperature_drop_fires current prev ->
    let r := fst (detectAnomaly current (Some prev) w) in
    ((exists a, r = Some a /\ Anomaly.type a = motion_surge)
     <-> motion current > 0.55 /\ motion prev < 0.08)
    /\ (forall a, r = Some a -> Anomaly.type a = motion_surge ->
          (Anomaly.severity a = high <-> motion current > 0.8)
          /\ (Anomaly.severity a = medium <-> ~ motion current > 0.8)).
Proof.
  intros current prev w He Ht r; subst r.
  destruct (first_candidate_cases current prev) as (_ & _ & H3 & _).
  split.
  - split.
    + intros (a & Ha & Hty).
      apply detectAnomaly_type in Ha. rewrite Hty in Ha.
      apply first_candidate_type in Ha. apply Ha.
    + intros Hm.
      destruct (detectAnomaly_some current prev w _ _ (H3 He Ht Hm)) as (a & Ha & Hty & _).
      eauto.
  - intros a Ha Hty.
    apply detectAnomaly_type in Ha. rewrite Hty in Ha.
    pose proof (first_candidate_type _ _ _ _ Ha) as (_ & _ & Hm).
    rewrite (H3 He Ht Hm) in Ha. injection Ha as Hsv.
    destruct (Num.gt (motion current) 0.8) eqn:E; num_hyps; rewrite <- Hsv;
      split; split; intros; (congruence || lra).
Qed.

Lemma detectAnomaly_motion_surge_witness :
  ~ emf_spike_fires surge_current (quiet 1013 0)
  /\ ~ temperature_drop_fires surge_current (quiet 1013 0)
  /\ (let r := fst (detectAnomaly surge_current (Some (quiet 1013 0)) still_world) in
      ((exists a, r = Some a /\ Anomaly.type a = motion_surge)
       <-> motion surge_current > 0.55 /\ motion (quiet 1013 0) < 0.08)
      /\ (forall a, r = Some a -> Anomaly.type a = motion_surge ->
            (Anomaly.severity a = high <-> motion surge_current > 0.8)
            /\ (Anomaly.severity a = medium <-> ~ motion surge_current > 0.8))).
Proof.
  assert (He : ~ emf_spike_fires surge_current (quiet 1013 0))
    by (unfold emf_spike_fires; cbn; lra).
  assert (Ht : ~ temperature_drop_fires surge_current (quiet 1013 0))
    by (unfold temperature_drop_fires; cbn; lra).
  split; [exact He|]. split; [exact Ht|].
  apply (detectAnomaly_motion_surge surge_current (quiet 1013 0) still_world He Ht).
Defined.

(** X16. With a previous reading present and none of the EMF, temperature and
    motion predicates firing, [detectAnomaly] returns an evp_pattern exactly
    when the current audio level is above -22 and the previous one below
    -42; its severity is high exactly when the current level is above -12. *)
Theorem detectAnomaly_evp_pattern :
  forall (current prev : SensorReading) (w : World),
    ~ emf_spike_fires current prev ->
    ~ temperature_drop_fires current prev ->
    ~ motion_surge_fires current prev ->
    let r := fst (detectAnomaly current (Some prev) w) in
    ((exists a, r = Some a /\ Anomaly.type a = evp_pattern)
     <-> audioLevel current > - 22 /\ audioLevel prev < - 42)
    /\ (forall a, r = Some a -> Anomaly.type a = evp_pattern ->
          (Anomaly.severity a = high <-> audioLevel current > - 12)
          /\ (Anomaly.severity a = medium <-> ~ audioLevel current > - 12)).
Proof.
  intros current prev w He Ht Hm r; subst r.
  destruct (first_candidate_cases current prev) as (_ & _ & _ & H4 & _).
  split.
  - split.
    + intros (a & Ha & Hty).
      apply detectAnomaly_type in Ha. rewrite Hty in Ha.
      apply first_candidate_type in Ha. apply Ha.
    + intros Hv.
      destruct (detectAnomaly_some current prev w _ _ (H4 He Ht Hm Hv))
        as (a & Ha & Hty & _).
      eauto.
  - intros a Ha Hty.
    apply detectAnomaly_type in Ha. rewrite Hty in Ha.
    pose proof (first_candidate_type _ _ _ _ Ha) as (_ & _ & _ & Hv).
    rewrite (H4 He Ht Hm Hv) in Ha. injection Ha as Hsv.
    destruct (Num.gt (audioLevel current) (- 12)) eqn:E; num_hyps; rewrite <- Hsv;
      split; split; intros; (congruence || lra).
Qed.

Lemma detectAnomaly_evp_pattern_witness :
  ~ emf_spike_fires voice_current (quiet 1013 0)
  /\ ~ temperature_drop_fires voice_current (quiet 1013 0)
  /\ ~ motion_surge_fires voice_current (quiet 1013 0)
  /\ (let r := fst (detectAnomaly voice_current (Some (quiet 1013 0)) still_world) in
      ((exists a, r = Some a /\ Anomaly.type a = evp_pattern)
       <-> audioLevel voice_current > - 22 /\ audioLevel (quiet 1013 0) < - 42)
      /\ (forall a, r = Some a -> Anomaly.type a = evp_pattern ->
            (Anomaly.severity a = high <-> audioLevel voice_current > - 12)
            /\ (Anomaly.severity a = medium <-> ~ audioLevel voice_current > - 12))).
Proof.
  assert (He : ~ emf_spike_fires voice_current (quiet 1013 0))
    by (unfold emf_spike_fires; cbn; lra).
  assert (Ht : ~ temperature_drop_fires voice_current (quiet 1013 0))
    by (unfold temperature_drop_fires; cbn; lra).
  assert (Hm : ~ motion_surge_fires voice_current (quiet 1013 0))
    by (unfold motion_surge_fires; cbn; lra).
  split; [exact He|]. split; [exact Ht|]. split; [exact Hm|].
  apply (detectAnomaly_evp_pattern voice_current (quiet 1013 0) still_world He Ht Hm).
Defined.

(** X17. An anomaly needs a jump: whenever one is returned, the EMF rose by more
    than 1.8, or the temperature fell by more than 1.8, or the motion rose by
    more than 0.47, or the audio level rose by more than 20, according to its
    type; so a reading compared with itself never gives an anomaly. *)
Theorem detectAnomaly_needs_jump :
  forall (current prev : SensorReading) (w : World),
    (forall a, fst (detectAnomaly current (Some prev) w) = Some a ->
       match Anomaly.type a with
       | emf_spike => emf current - emf prev > 1.8
       | temperature_drop => temperature prev - temperature current > 1.8
       | motion_surge => motion current - motion prev > 0.47
       | evp_pattern => audioLevel current - audioLevel prev > 20
       end)
    /\ fst (detectAnomaly current (Some current) w) = None.
Proof.
  intros current prev w. split.
  - intros a Ha. apply detectAnomaly_type in Ha.
    apply first_candidate_type in Ha.
    destruct (Anomaly.type a);
      unfold emf_spike_fires, temperature_drop_fires, motion_surge_fires,
             evp_pattern_fires in Ha; lra.
  - apply detectAnomaly_none_iff. apply first_candidate_cases;
      unfold emf_spike_fires, temperature_drop_fires, motion_surge_fires,
             evp_pattern_fires; lra.
Qed.

(** X18. The detector is edge-triggered: over three consecutive readings the same
    type of anomaly is never returned twice in a row, except
    temperature_drop. *)
Theorem detectAnomaly_no_repeat :
  forall (r0 r1 r2 : SensorReading) (w w' : World) (a b : Anomaly.t),
    fst (detectAnomaly r1 (Some r0) w) = Some a ->
    fst (detectAnomaly r2 (Some r1) w') = Some b ->
    Anomaly.type a = Anomaly.type b ->
    Anomaly.type a = temperature_drop.
Proof.
  intros r0 r1 r2 w w' a b Ha Hb Hty.
  apply detectAnomaly_type, first_candidate_type in Ha.
  apply detectAnomaly_type, first_candidate_type in Hb.
  rewrite <- Hty in Hb.
  destruct (Anomaly.type a); [|reflexivity| |]; exfalso;
    unfold emf_spike_fires, temperature_drop_fires, motion_surge_fires,
           evp_pattern_fires in *; lra.
Qed.

Lemma detectAnomaly_no_repeat_witness :
  exists a b,
    fst (detectAnomaly (cooling 19) (Some (cooling 21)) still_world) = Some a
    /\ fst (detectAnomaly (cooling 17) (Some (cooling 19)) still_world) = Some b
    /\ Anomaly.type a = Anomaly.type b
    /\ Anomaly.type a = temperature_drop.
Proof.
  assert (H1 : exists a, fst (detectAnomaly (cooling 19) (Some (cooling 21)) still_world)
                         = Some a /\ Anomaly.type a = temperature_drop).
  { destruct (first_candidate_cases (cooling 19) (cooling 21)) as (_ & H & _).
    destruct (detectAnomaly_some _ _ still_world _ _
                (H ltac:(unfold emf_spike_fires; cbn; lra)
                   ltac:(unfold temperature_drop_fires; cbn; lra)))
      as (a & Ha & Ta & _).
    exists a. split; assumption. }
  assert (H2 : exists b, fst (detectAnomaly (cooling 17) (Some (cooling 19)) still_world)
                         = Some b /\ Anomaly.type b = temperature_drop).
  { destruct (first_candidate_cases (cooling 17) (cooling 19)) as (_ & H & _).
    destruct (detectAnomaly_some _ _ still_world _ _
                (H ltac:(unfold emf_spike_fires; cbn; lra)
                   ltac:(unfold temperature_drop_fires; cbn; lra)))
      as (b & Hb & Tb & _).
    exists b. split; assumption. }
  destruct H1 as (a & Ha & Ta). destruct H2 as (b & Hb & Tb).
  exists a, b. split; [exact Ha|]. split; [exact Hb|].
  split; [congruence|].
  apply (detectAnomaly_no_repeat (cooling 21) (cooling 19) (cooling 17)
           still_world still_world a b Ha Hb). congruence.
Defined.

(** ** Digits and the hash *)

Lemma digits_fuel_length_le fuel radix :
  (1 < radix)%Z ->
  forall (k : nat) (n : Z) (acc : list Z),
    (0 <= n < radix ^ Z.of_nat (S k))%Z ->
    (length (digits_fuel fuel radix n acc) <= S k + length acc)%nat.
Proof.
  intros Hr. induction fuel as [|f IH]; intros k n acc Hn; cbn [digits_fuel].
  - lia.
  - destruct (n / radix =? 0)%Z eqn:E.
    + cbn [length]. lia.
    + apply Z.eqb_neq in E.
      destruct k as [|k'].
      * exfalso. apply E. apply Z.div_small.
        change (Z.of_nat 1) with 1%Z in Hn. rewrite Z.pow_1_r in Hn. exact Hn.
      * specialize (IH k' (n / radix)%Z ((n mod radix)%Z :: acc)).
        cbn [length] in IH.
        assert (Hq : (0 <= n / radix < radix ^ Z.of_nat (S k'))%Z).
        { split; [apply Z.div_pos; lia|].
          apply Z.div_lt_upper_bound; [lia|].
          replace (Z.of_nat (S (S k'))) with (Z.succ (Z.of_nat (S k'))) in Hn by lia.
          rewrite Z.pow_succ_r in Hn by lia. lia. }
        specialize (IH Hq). lia.
Qed.

Lemma digits_fuel_length_ge fuel radix n acc :
  (length acc <= length (digits_fuel fuel radix n acc))%nat.
Proof.
  revert n acc. induction fuel as [|f IH]; intros n acc; cbn [digits_fuel]; [lia|].
  destruct (n / radix =? 0)%Z; [cbn [length]; lia|].
  specialize (IH (n / radix)%Z ((n mod radix)%Z :: acc)). cbn [length] in IH. lia.
Qed.

Lemma digits_fuel_range fuel radix :
  (0 < radix)%Z ->
  forall (n : Z) (acc : list Z),
    Forall (fun d => 0 <= d < radix)%Z acc ->
    Forall (fun d => 0 <= d < radix)%Z (digits_fuel fuel radix n acc).
Proof.
  intros Hr. induction fuel as [|f IH]; intros n acc Hacc; cbn [digits_fuel]; [exact Hacc|].
  assert (Hd : Forall (fun d => 0 <= d < radix)%Z ((n mod radix)%Z :: acc))
    by (constructor; [apply Z.mod_pos_bound; exact Hr | exact Hacc]).
  destruct (n / radix =? 0)%Z; [exact Hd | apply IH, Hd].
Qed.

Lemma digits_nonempty radix n : (1 <= length (digits radix n))%nat.
Proof.
  unfold digits. cbn [digits_fuel].
  destruct (n / radix =? 0)%Z; [cbn [length]; lia|].
  pose proof (digits_fuel_length_ge (Z.to_nat (Z.log2 n)) radix (n / radix)%Z
                [(n mod radix)%Z]) as H.
  cbn [length] in H. exact H.
Qed.

Lemma toInt32_range z : (- 2 ^ 31 <= toInt32 z < 2 ^ 31)%Z.
Proof.
  unfold toInt32. pose proof (Z.mod_pos_bound (z + 2 ^ 31) (2 ^ 32) ltac:(lia)). lia.
Qed.

Lemma toInt32_shift z k : toInt32 (z + k * 2 ^ 32) = toInt32 z.
Proof.
  unfold toInt32. replace (z + k * 2 ^ 32 + 2 ^ 31)%Z with (z + 2 ^ 31 + k * 2 ^ 32)%Z by ring.
  rewrite Z.mod_add by lia. reflexivity.
Qed.

Lemma toInt32_decompose z : exists k, toInt32 z = (z + k * 2 ^ 32)%Z.
Proof.
  exists (- ((z + 2 ^ 31) / 2 ^ 32))%Z. unfold toInt32.
  rewrite Z.mod_eq by lia. ring.
Qed.

Lemma toInt32_congr a b k : a = (b + k * 2 ^ 32)%Z -> toInt32 a = toInt32 b.
Proof. intros ->. apply toInt32_shift. Qed.

Lemma toInt32_small z : (- 2 ^ 31 <= z < 2 ^ 31)%Z -> toInt32 z = z.
Proof. intros H. unfold toInt32. rewrite Z.mod_small by lia. lia. Qed.

Lemma is_upper_hex_digit d :
  (0 <= d < 16)%Z ->
  is_upper_hex (let c := digitChar d in
                if ((97 <=? c) && (c <=? 122))%Z then (c - 32)%Z else c).
Proof.
  intros Hd. unfold digitChar, is_upper_hex. cbv zeta.
  destruct (d <? 10)%Z eqn:E;
    [apply Z.ltb_lt in E | apply Z.ltb_ge in E];
    destruct (97 <=? _)%Z eqn:E1; destruct (_ <=? 122)%Z eqn:E2; cbn [andb];
    try apply Z.leb_le in E1; try apply Z.leb_le in E2;
    try apply Z.leb_gt in E1; try apply Z.leb_gt in E2; lia.
Qed.

(** X20. Whatever the string, [simpleHash] returns exactly 8 characters, each one
    of [0-9A-F], and the number they spell is at most 2^31. *)
Theorem simpleHash_shape :
  forall s : jsstring,
    length (simpleHash s) = 8%nat
    /\ Forall is_upper_hex (simpleHash s)
    /\ (0 <= Z.abs (simpleHash_value s) <= 2 ^ 31)%Z
    /\ simpleHash s
       = padStart 8 48%Z (toUpperCase (toStringRadix 16 (Z.abs (simpleHash_value s)))).
Proof.
  intros s. unfold simpleHash. fold (simpleHash_value s).
  set (h := simpleHash_value s).
  assert (Hh : (- 2 ^ 31 <= h <= 2 ^ 31)%Z).
  { unfold h, simpleHash_value.
    assert (G : forall l h0, (- 2 ^ 31 <= h0 <= 2 ^ 31)%Z ->
              (- 2 ^ 31 <= fold_left (fun h c => toInt32 (toInt32 (h * 32) + h + c)) l h0
               <= 2 ^ 31)%Z).
    { induction l as [|c l IH]; intros h0 H0; cbn [fold_left]; [exact H0|].
      apply IH. pose proof (toInt32_range (toInt32 (h0 * 32) + h0 + c)). lia. }
    apply G. lia. }
  assert (Ha : (0 <= Z.abs h < 16 ^ Z.of_nat 8)%Z) by (change (16 ^ Z.of_nat 8)%Z with (2 ^ 32)%Z; lia).
  unfold toStringRadix.
  replace (Z.abs h <? 0)%Z with false by (symmetry; apply Z.ltb_ge; lia).
  rewrite Z.abs_idemp. cbn [app].
  assert (Hlen : (length (digits 16 (Z.abs h)) <= 8)%nat).
  { unfold digits.
    pose proof (digits_fuel_length_le (S (Z.to_nat (Z.log2 (Z.abs h)))) 16 ltac:(lia)
                  7 (Z.abs h) [] Ha) as H.
    cbn [length] in H. lia. }
  assert (Hdig : Forall (fun d => 0 <= d < 16)%Z (digits 16 (Z.abs h)))
    by (apply digits_fuel_range; [lia | constructor]).
  split; [|split; [|split; [lia | reflexivity]]].
  - unfold padStart, toUpperCase. rewrite length_app, repeat_length, !length_map. lia.
  - unfold padStart, toUpperCase. apply Forall_app. split.
    + apply Forall_forall. intros x Hx. apply repeat_spec in Hx. subst x.
      unfold is_upper_hex. lia.
    + rewrite map_map. apply Forall_map.
      eapply Forall_impl; [|exact Hdig].
      intros d Hd. apply (is_upper_hex_digit d Hd).
Qed.

Lemma simpleHash_value_step l :
  forall h0 h0',
    toInt32 h0' = h0 ->
    fold_left (fun h c => toInt32 (toInt32 (h * 32) + h + c)) l h0
    = toInt32 (fold_left (fun h c => (h * 33 + c)%Z) l h0').
Proof.
  induction l as [|c l IH]; intros h0 h0' H0; cbn [fold_left]; [symmetry; exact H0|].
  apply IH. subst h0.
  destruct (toInt32_decompose h0') as [k Hk].
  destruct (toInt32_decompose (toInt32 h0' * 32)) as [k' Hk'].
  rewrite Hk'. rewrite Hk.
  apply (toInt32_congr _ _ (- (k * 33 + k'))%Z). ring.
Qed.

(** X21. The 32-bit wraps inside the loop of [simpleHash] do not change its
    result: the number printed is the unbounded djb2 sum (5381, times 33 plus
    the code unit at each step) wrapped once to 32 bits, in absolute value;
    so two strings whose sums agree modulo 2^32, or are opposite modulo
    2^32, have the same hash. *)
Theorem simpleHash_is_wrapped_djb2 :
  forall s : jsstring,
    simpleHash_value s = toInt32 (djb2 s)
    /\ simpleHash s
       = padStart 8 48%Z (toUpperCase (toStringRadix 16 (Z.abs (toInt32 (djb2 s)))))
    /\ (forall s' : jsstring,
          ((djb2 s - djb2 s') mod 2 ^ 32 = 0 \/ (djb2 s + djb2 s') mod 2 ^ 32 = 0)%Z ->
          simpleHash s = simpleHash s').
Proof.
  assert (V : forall s, simpleHash_value s = toInt32 (djb2 s)).
  { intros s. unfold simpleHash_value, djb2.
    apply simpleHash_value_step. apply toInt32_small. lia. }
  assert (P : forall s, simpleHash s
              = padStart 8 48%Z (toUpperCase (toStringRadix 16 (Z.abs (toInt32 (djb2 s)))))).
  { intros s. rewrite <- V. reflexivity. }
  intros s. split; [apply V|]. split; [apply P|].
  intros s' H. rewrite (P s), (P s'). do 3 f_equal.
  destruct H as [H|H].
  - f_equal. apply Z.mod_divide in H; [|lia]. destruct H as [k Hk].
    apply (toInt32_congr _ _ k). lia.
  - apply Z.mod_divide in H; [|lia]. destruct H as [k Hk].
    assert (E : toInt32 (djb2 s) = toInt32 (- djb2 s'))
      by (apply (toInt32_congr _ _ k); lia).
    rewrite E.
    pose proof (toInt32_range (djb2 s')) as R1.
    destruct (Z.eq_dec (toInt32 (djb2 s')) (- 2 ^ 31)) as [Em|Em].
    + destruct (toInt32_decompose (djb2 s')) as [k' Hk'].
      assert (E' : toInt32 (- djb2 s') = toInt32 (djb2 s')).
      { apply (toInt32_congr _ _ (1 + 2 * k')%Z).
        rewrite Em in Hk'. lia. }
      rewrite E'. reflexivity.
    + destruct (toInt32_decompose (djb2 s')) as [k' Hk'].
      assert (E' : toInt32 (- djb2 s') = (- toInt32 (djb2 s'))%Z).
      { rewrite <- (toInt32_small (- toInt32 (djb2 s'))) by lia.
        apply (toInt32_congr _ _ k'). lia. }
      rewrite E'. apply Z.abs_opp.
Qed.

(** X19. With [Math.random()] in [0,1), a returned anomaly has an entropy
    decoration in [0.65, 0.95) and a hotspot in [0.15, 0.85) on both axes;
    its id is the letter Alpha followed by at most the last 5 base-36 digits
    of the first clock value, its timestamp is the second clock value, and
    its hash digests the id, the description and the reading's timestamp.
    When no anomaly is returned, neither the random source nor the clock has
    been read. *)
Theorem detectAnomaly_decoration :
  forall (current : SensorReading) (prev : option SensorReading) (w : World),
    valid_world w ->
    (forall a, fst (detectAnomaly current prev w) = Some a ->
       0.65 <= Anomaly.entropy a < 0.95
       /\ 0.15 <= Hotspot.x (Anomaly.hotspot a) < 0.85
       /\ 0.15 <= Hotspot.y (Anomaly.hotspot a) < 0.85
       /\ Anomaly.id a
          = 913%Z :: slice_last 5 (toUpperCase (toStringRadix 36 (clock w 0)))
       /\ (2 <= length (Anomaly.id a) <= 6)%nat
       /\ Anomaly.timestamp a = clock w 1
       /\ Anomaly.hash a
          = simpleHash (Anomaly.id a ++ Anomaly.description a
                        ++ toStringRadix 10 (timestamp current)))
    /\ (fst (detectAnomaly current prev w) = None ->
        snd (detectAnomaly current prev w) = w).
Proof.
  intros current prev w Hw.
  pose proof (Hw 0%nat). pose proof (Hw 1%nat). pose proof (Hw 2%nat).
  pose proof (Hw 3%nat). pose proof (Hw 4%nat).
  assert (Hid : (2 <= length (913%Z :: slice_last 5
                                   (toUpperCase (toStringRadix 36 (clock w 0)))) <= 6)%nat).
  { cbn [length]. unfold slice_last. rewrite length_skipn.
    unfold toUpperCase, toStringRadix. rewrite length_map, length_app, length_map.
    pose proof (digits_nonempty 36 (Z.abs (clock w 0))). lia. }
  destruct prev as [prev|]; [|split; [discriminate | reflexivity]].
  unfold detectAnomaly, bind, ret, Math_random, Date_now.
  destruct (Num.gt (emf current) 2.8 && Num.lt (emf prev) 1.0);
  destruct (Num.lt (temperature current) (temperature prev - 1.8));
  destruct (Num.gt (motion current) 0.55 && Num.lt (motion prev) 0.08);
  destruct (Num.gt (audioLevel current) (- 22) && Num.lt (audioLevel prev) (- 42));
  cbn [fst snd app rand clock];
  (split; [|intros; (discriminate || reflexivity)]);
  intros a Ha; try discriminate; injection Ha as <-;
  cbn [Anomaly.entropy Anomaly.hotspot Anomaly.id Anomaly.timestamp Anomaly.hash
       Anomaly.description Hotspot.x Hotspot.y app];
  (split; [lra|]); (split; [lra|]); (split; [lra|]);
  (split; [reflexivity|]); (split; [exact Hid|]); split; reflexivity.
Qed.

Lemma detectAnomaly_decoration_witness :
  valid_world still_world
  /\ (forall a, fst (detectAnomaly surge_current (Some (quiet 1013 0)) still_world) = Some a ->
        0.65 <= Anomaly.entropy a < 0.95
        /\ 0.15 <= Hotspot.x (Anomaly.hotspot a) < 0.85
        /\ 0.15 <= Hotspot.y (Anomaly.hotspot a) < 0.85
        /\ Anomaly.id a
           = 913%Z :: slice_last 5 (toUpperCase (toStringRadix 36 (clock still_world 0)))
        /\ (2 <= length (Anomaly.id a) <= 6)%nat
        /\ Anomaly.timestamp a = clock still_world 1
        /\ Anomaly.hash a
           = simpleHash (Anomaly.id a ++ Anomaly.description a
                         ++ toStringRadix 10 (timestamp surge_current)))
  /\ (fst (detectAnomaly surge_current (Some (quiet 1013 0)) still_world) = None ->
      snd (detectAnomaly surge_current (Some (quiet 1013 0)) still_world) = still_world).
Proof.
  split; [exact valid_still_world|].
  apply (detectAnomaly_decoration surge_current (Some (quiet 1013 0)) still_world
           valid_still_world).
Defined.

(** * app.tsx: the quantum utilities *)

Lemma land_lxor_distr a b m :
  Z.land (Z.lxor a b) m = Z.lxor (Z.land a m) (Z.land b m).
Proof.
  apply Z.bits_inj'. intros n Hn.
  rewrite !Z.land_spec, !Z.lxor_spec, !Z.land_spec.
  destruct (Z.testbit a n), (Z.testbit b n), (Z.testbit m n); reflexivity.
Qed.

Lemma toInt32_lxor a b :
  toInt32 (Z.lxor (toInt32 a) (toInt32 b)) = toInt32 (Z.lxor a b).
Proof.
  assert (M : forall x y, (x mod 2 ^ 32 = y mod 2 ^ 32)%Z -> toInt32 x = toInt32 y).
  { intros x y Hxy.
    apply (toInt32_congr x y (x / 2 ^ 32 - y / 2 ^ 32)%Z).
    pose proof (Z.div_mod x (2 ^ 32) ltac:(lia)).
    pose proof (Z.div_mod y (2 ^ 32) ltac:(lia)). lia. }
  assert (L : forall x, (toInt32 x mod 2 ^ 32 = x mod 2 ^ 32)%Z).
  { intros x. destruct (toInt32_decompose x) as [k ->]. apply Z.mod_add. lia. }
  apply M.
  rewrite <- !Z.land_ones by lia.
  rewrite !land_lxor_distr.
  rewrite !Z.land_ones by lia.
  rewrite !L. reflexivity.
Qed.

(** X22. [generateQuantumEntropy] divides the 32-bit signed reading of the XOR of
    its four random words by 2^32 - 1: the value lies in [-0.51, 0.5), not in
    [0, 1), and is negative exactly when the XOR has its top bit set. *)
Theorem generateQuantumEntropy_range :
  forall b0 b1 b2 b3 : Z,
    let x := Z.lxor (Z.lxor (Z.lxor b0 b1) b2) b3 in
    generateQuantumEntropy b0 b1 b2 b3 = IZR (toInt32 x) / 4294967295
    /\ - 0.51 < generateQuantumEntropy b0 b1 b2 b3 < 0.5
    /\ (generateQuantumEntropy b0 b1 b2 b3 < 0 <-> Z.testbit x 31 = true).
Proof.
  intros b0 b1 b2 b3 x.
  assert (E : generateQuantumEntropy b0 b1 b2 b3 = IZR (toInt32 x) / 4294967295).
  { unfold generateQuantumEntropy. cbn [fold_left]. f_equal. f_equal.
    rewrite !(fun z => toInt32_small (toInt32 z) (toInt32_range z)).
    rewrite (toInt32_lxor 0 b0), Z.lxor_0_l.
    rewrite (toInt32_lxor b0 b1).
    rewrite (toInt32_lxor (Z.lxor b0 b1) b2).
    rewrite (toInt32_lxor (Z.lxor (Z.lxor b0 b1) b2) b3). reflexivity. }
  pose proof (toInt32_range x) as Hr.
  assert (Hlo : IZR (- 2 ^ 31) <= IZR (toInt32 x)) by (apply IZR_le; lia).
  assert (Hhi : IZR (toInt32 x) <= IZR (2 ^ 31 - 1)) by (apply IZR_le; lia).
  change (IZR (- 2 ^ 31)) with (-2147483648) in Hlo.
  change (IZR (2 ^ 31 - 1)) with 2147483647 in Hhi.
  split; [exact E|]. rewrite E. split.
  - split.
    + apply (Rmult_lt_reg_r 4294967295); [lra|].
      unfold Rdiv. rewrite Rmult_assoc, Rinv_l by lra. lra.
    + apply (Rmult_lt_reg_r 4294967295); [lra|].
      unfold Rdiv. rewrite Rmult_assoc, Rinv_l by lra. lra.
  - assert (Hneg : IZR (toInt32 x) / 4294967295 < 0 <-> (toInt32 x < 0)%Z).
    { split.
      - intros H. apply lt_IZR.
        apply (Rmult_lt_compat_r 4294967295) in H; [|lra].
        unfold Rdiv in H. rewrite Rmult_assoc, Rinv_l in H by lra. lra.
      - intros H. apply IZR_lt in H.
        apply (Rmult_lt_reg_r 4294967295); [lra|].
        unfold Rdiv. rewrite Rmult_assoc, Rinv_l by lra. lra. }
    rewrite Hneg. rewrite Z.testbit_true by lia.
    unfold toInt32.
    pose proof (Z.div_mod x (2 ^ 31) ltac:(lia)) as D1.
    pose proof (Z.mod_pos_bound x (2 ^ 31) ltac:(lia)) as B1.
    pose proof (Z.div_mod (x / 2 ^ 31) 2 ltac:(lia)) as D2.
    pose proof (Z.mod_pos_bound (x / 2 ^ 31) 2 ltac:(lia)) as B2.
    set (q := (x / 2 ^ 31 / 2)%Z) in *.
    set (t := ((x / 2 ^ 31) mod 2)%Z) in *.
    set (r := (x mod 2 ^ 31)%Z) in *.
    destruct (Z.eq_dec t 1) as [Et|Et].
    + assert (Hm : ((x + 2 ^ 31) mod 2 ^ 32 = r)%Z).
      { replace (x + 2 ^ 31)%Z with (r + (q + 1) * 2 ^ 32)%Z by lia.
        rewrite Z.mod_add by lia. apply Z.mod_small. lia. }
      rewrite Hm. split; intros; lia.
    + assert (Et0 : t = 0%Z) by lia.
      assert (Hm : ((x + 2 ^ 31) mod 2 ^ 32 = r + 2 ^ 31)%Z).
      { replace (x + 2 ^ 31)%Z with (r + 2 ^ 31 + q * 2 ^ 32)%Z by lia.
        rewrite Z.mod_add by lia. apply Z.mod_small. lia. }
      rewrite Hm. split; intros; lia.
Qed.

Lemma last_four (readings : list R) :
  (4 <= length readings)%nat ->
  exists older a b c d, readings = older ++ [a; b; c; d].
Proof.
  intros H.
  exists (firstn (length readings - 4) readings).
  pose proof (firstn_skipn (length readings - 4) readings) as E.
  pose proof (length_skipn (length readings - 4) readings) as L.
  destruct (skipn (length readings - 4) readings) as [|a [|b [|c [|d [|e l]]]]];
    cbn [length] in L; try lia.
  exists a, b, c, d. symmetry. exact E.
Qed.

Lemma computeSValue_app older a b c d :
  computeSValue (older ++ [a; b; c; d]) = Rabs (a * b - c * d) * 2.828.
Proof.
  unfold computeSValue. rewrite length_app. cbn [length].
  replace (length older + 4 <? 4)%nat with false by (symmetry; apply Nat.ltb_ge; lia).
  replace (length older + 4 - 4)%nat with (length older + 0)%nat by lia.
  rewrite skipn_app, Nat.add_0_r, skipn_all, Nat.sub_diag. reflexivity.
Qed.

(** X23. [computeSValue] is 0 with fewer than 4 readings and otherwise depends on
    the last four only; it is never negative, and when every reading lies in
    [0, m] it is at most 2.828 m^2 (0.45248 for readings of at most 0.4, below
    the classical bound 2). *)
Theorem computeSValue_spec :
  forall readings : list R,
    0 <= computeSValue readings
    /\ ((length readings < 4)%nat -> computeSValue readings = 0)
    /\ (forall older a b c d,
          readings = older ++ [a; b; c; d] ->
          computeSValue readings = Rabs (a * b - c * d) * 2.828)
    /\ (forall m, 0 <= m -> Forall (fun x => 0 <= x <= m) readings ->
          computeSValue readings <= 2.828 * (m * m)).
Proof.
  intros readings.
  assert (Hs : (length readings < 4)%nat -> computeSValue readings = 0).
  { intros H. unfold computeSValue.
    replace (length readings <? 4)%nat with true by (symmetry; apply Nat.ltb_lt; exact H).
    reflexivity. }
  split; [|split; [exact Hs|split]].
  - destruct (Nat.lt_ge_cases (length readings) 4) as [H|H].
    + rewrite Hs by exact H. lra.
    + destruct (last_four readings H) as (older & a & b & c & d & ->).
      rewrite computeSValue_app. pose proof (Rabs_pos (a * b - c * d)). lra.
  - intros older a b c d ->. apply computeSValue_app.
  - intros m Hm Hall.
    destruct (Nat.lt_ge_cases (length readings) 4) as [H|H].
    + rewrite Hs by exact H. nra.
    + destruct (last_four readings H) as (older & a & b & c & d & ->).
      rewrite computeSValue_app.
      apply Forall_app in Hall. destruct Hall as [_ Hl].
      inversion Hl as [|? ? Ha Hl1]; subst.
      inversion Hl1 as [|? ? Hb Hl2]; subst.
      inversion Hl2 as [|? ? Hc Hl3]; subst.
      inversion Hl3 as [|? ? Hd _]; subst.
      assert (Hab : 0 <= a * b <= m * m) by nra.
      assert (Hcd : 0 <= c * d <= m * m) by nra.
      assert (Rabs (a * b - c * d) <= m * m) by (apply Rabs_le; lra).
      lra.
Qed.

(** X24. The deviation from the baseline is never negative and is 0 only at the
    baseline when the baseline is above -0.001; below -0.001, where
    [generateQuantumEntropy] can put it, the deviation is never positive, so
    the gate [deviation > 0.4] of the sensor stream stays shut. *)
Theorem compareToQRNG_sign :
  forall value baseline : R,
    (- 0.001 < baseline ->
     0 <= compareToQRNG value baseline
     /\ (compareToQRNG value baseline = 0 <-> value = baseline))
    /\ (baseline < - 0.001 ->
        compareToQRNG value baseline <= 0
        /\ Num.gt (compareToQRNG value baseline) 0.4 = false).
Proof.
  intros value baseline. unfold compareToQRNG, Rdiv.
  pose proof (Rabs_pos (value - baseline)) as Ha.
  split.
  - intros Hb.
    assert (Hi : 0 < / (baseline + 0.001)) by (apply Rinv_0_lt_compat; lra).
    split; [apply Rmult_le_pos; lra|].
    split.
    + intros H. apply Rmult_integral in H. destruct H as [H|H]; [|lra].
      unfold Rabs in H. destruct (Rcase_abs (value - baseline)); lra.
    + intros ->. rewrite Rminus_diag, Rabs_R0. lra.
  - intros Hb.
    assert (Hi : / (baseline + 0.001) < 0) by (apply Rinv_lt_0_compat; lra).
    assert (Hn : Rabs (value - baseline) * / (baseline + 0.001) <= 0) by nra.
    split; [exact Hn|]. apply Num_gt_false. lra.
Qed.

(** X25. [fmToAudio] is an increasing linear map that sends the FM band
    [87.5, 108] onto the audio band [350, 3750]. *)
Theorem fmToAudio_band :
  forall a b : R,
    (a <= b -> fmToAudio a <= fmToAudio b)
    /\ fmToAudio 87.5 = 350
    /\ fmToAudio 108 = 3750
    /\ (87.5 <= a <= 108 -> 350 <= fmToAudio a <= 3750)
    /\ (350 <= b <= 3750 -> exists mhz, 87.5 <= mhz <= 108 /\ fmToAudio mhz = b).
Proof.
  intros a b. unfold fmToAudio.
  replace (108.0 - 87.5) with 20.5 by lra.
  split; [intros; lra|]. split; [lra|]. split; [lra|]. split; [intros; lra|].
  intros Hb. exists (87.5 + (b - 350) * 20.5 / 3400).
  split; lra.
Qed.

(** X26. The sweep never leaves the FM band: from a frequency in [87.5, 108] and
    a sweep rate that is not negative, the next frequency is again in
    [87.5, 108], it is a multiple of 0.1 within 0.05 of the stepped frequency
    unless the sweep wrapped round to 87.5, and the filter frequency
    [fmToAudio] computes from it stays in [350, 3750]. *)
Theorem sweep_step_in_band :
  forall freq rate : R,
    87.5 <= freq <= 108 ->
    0 <= rate ->
    87.5 <= sweep_step freq rate <= 108
    /\ 350 <= fmToAudio (sweep_step freq rate) <= 3750
    /\ (freq + 0.1 * rate > 108 -> sweep_step freq rate = 87.5)
    /\ (freq + 0.1 * rate <= 108 ->
        Rabs (sweep_step freq rate - (freq + 0.1 * rate)) <= 0.05
        /\ exists n : Z, sweep_step freq rate = IZR n / 10).
Proof.
  intros freq rate Hf Hr.
  assert (Hband : forall x, 87.5 <= x <= 108 -> 350 <= fmToAudio x <= 3750)
    by (intros x Hx; unfold fmToAudio; lra).
  unfold sweep_step. cbv zeta.
  destruct (Num.gt (freq + 0.1 * rate) 108.0) eqn:E; num_hyps.
  - split; [lra|]. split; [apply Hband; lra|].
    split; [reflexivity|]. intros; lra.
  - assert (Hx : 87.5 <= freq + 0.1 * rate <= 108) by lra.
    set (x := freq + 0.1 * rate) in *.
    rewrite (toFixed_nonneg x 1) by lra.
    unfold Fixed_value. cbn [fx_neg fx_mag fx_digits pow].
    pose proof (Zfloor_bound (x * (10 * 1) + / 2)) as [Hlo Hhi].
    set (n := Zfloor (x * (10 * 1) + / 2)) in *.
    assert (Hn1 : (875 <= n)%Z) by (apply Zfloor_lub; lra).
    assert (Hn2 : (n < 1081)%Z) by (apply lt_IZR; lra).
    assert (Hn1' : IZR 875 <= IZR n) by (apply IZR_le; exact Hn1).
    assert (Hn2' : IZR n <= IZR 1080) by (apply IZR_le; lia).
    assert (Hv : 87.5 <= 1 * IZR n / (10 * 1) <= 108) by lra.
    split; [exact Hv|]. split; [apply Hband; exact Hv|].
    split; [intros; lra|]. intros _.
    split; [apply Rabs_le; lra|].
    exists n. lra.
Qed.

Lemma sweep_step_in_band_witness :
  87.5 <= 107.95 <= 108
  /\ 0 <= 1
  /\ 87.5 <= sweep_step 107.95 1 <= 108
  /\ 350 <= fmToAudio (sweep_step 107.95 1) <= 3750
  /\ (107.95 + 0.1 * 1 > 108 -> sweep_step 107.95 1 = 87.5)
  /\ (107.95 + 0.1 * 1 <= 108 ->
      Rabs (sweep_step 107.95 1 - (107.95 + 0.1 * 1)) <= 0.05
      /\ exists n : Z, sweep_step 107.95 1 = IZR n / 10).
Proof.
  split; [lra|]. split; [lra|].
  apply (sweep_step_in_band 107.95 1); lra.
Defined.
